(** * Spark operator: pod event routing, admission webhook, metrics export
      and the gang-scheduling resource adapter

    A shallow embedding of the operator's Go code.  Go maps are stdpp
    [gmap]s, Go [(value, error)] results are the [result] type, a run-time
    panic (failed type assertion, nil dereference) is the [Panicked]
    outcome, and calls on collaborators (the work queue, the metric
    vectors) are recorded in the order the code makes them. *)

From Stdlib Require Import ZArith QArith Qround Lia.
From stdpp Require Import base option list gmap strings fin_maps pretty.

Local Close Scope Q_scope.
Local Open Scope Z_scope.

(** ** Go-level vocabulary *)

(** A Go [error] value, identified with the text of [err.Error()]. *)
Definition Error := string.

(** A Go [(value, error)] pair in which exactly one side is meaningful. *)
Inductive result (A : Type) : Type :=
| Ok (a : A)
| Err (e : Error).
Arguments Ok {A} a.
Arguments Err {A} e.

(** A Go call either returns or unwinds with a run-time panic. *)
Inductive Outcome (A : Type) : Type :=
| Returned (a : A)
| Panicked.
Arguments Returned {A} a.
Arguments Panicked {A}.

(** [m[k]] on a Go [map[string]string]: the zero value when [k] is absent. *)
Definition map_index (m : gmap string string) (k : string) : string :=
  default EmptyString (m !! k).

(** ** Kubernetes objects, as far as the operator reads them *)

Record Pod := mkPod {
  PodName : string;
  PodNamespace : string;
  ResourceVersion : string;
  Labels : gmap string string
}.

(** Modelled from the spec: the application state enumeration is declared
    in the API package; these are the states of the reconciler's state
    machine, [NewState] being the zero value. *)
Inductive ApplicationStateType : Type :=
| NewState
| SubmittedState
| RunningState
| SucceedingState
| FailingState
| CompletedState
| FailedState
| FailedSubmissionState.

(** The executor states, declared in the API package as non-empty string
    constants.  A read of a missing key in a Go
    [map[string]ExecutorState] yields the empty string, which is none of
    them; such a read is a [None] lookup here. *)
Inductive ExecutorState : Type :=
| ExecutorPendingState
| ExecutorRunningState
| ExecutorCompletedState
| ExecutorFailedState
| ExecutorUnknownState.

#[global] Instance ApplicationStateType_eq_dec : EqDecision ApplicationStateType.
Proof. solve_decision. Defined.

#[global] Instance ExecutorState_eq_dec : EqDecision ExecutorState.
Proof. solve_decision. Defined.

(** A [metav1.Time]: nanoseconds elapsed since the zero instant of
    [time.Time], so that [IsZero] is a comparison with 0. *)
Definition Time := Z.

(** [SparkApplication.Status], the fields the operator code below reads. *)
Record SparkApplicationStatus := mkStatus_ {
  SubmissionID : string;
  LastSubmissionAttemptTime : Time;
  TerminationTime : Time;
  AppState : ApplicationStateType;
  ExecutorStates : gmap string ExecutorState
}.

Record SparkApplication := mkApp {
  AppName : string;
  AppNamespace : string;
  AppLabels : gmap string string;
  Status : SparkApplicationStatus
}.

(** A value of static type [interface{}], by dynamic type: the nil interface,
    a [*apiv1.Pod] (possibly a nil pointer), a
    [cache.DeletedFinalStateUnknown] tombstone with its [Key] and [Obj]
    fields, or a value of any other type. *)
Inductive Object : Type :=
| NilObject
| PodObject (p : option Pod)
| DeletedFinalStateUnknown (Key : string) (Obj : Object)
| OtherObject (dynamicType : string).

(** ** pkg/controller/sparkapplication/spark_pod_eventhandler.go *)

Module PodEventHandler.

(** The constants of the config package that the handler reads: the label
    keys [config.SparkAppNameLabel] and [config.SubmissionIDLabel]. *)
Record Config := mkConfig {
  SparkAppNameLabel : string;
  SubmissionIDLabel : string
}.

(** The receiver [sparkPodEventHandler].  [applicationLister ns name] is
    [s.applicationLister.SparkApplications(ns).Get(name)], a read of the
    cached application index.  The other field, [enqueueFunc], is the
    handler's only effect; it is modelled below by the list of keys handed
    to the callback so far, oldest first. *)
Record sparkPodEventHandler := mkHandler {
  config : Config;
  applicationLister : string → string → result SparkApplication
}.

Definition enqueueFunc (appKey : string) (queue : list string) : list string :=
  queue ++ [appKey].

(** Modelled from the spec: [getAppName] is declared in the controller's
    utility file; the owning application name is read from a pod label.
    The second component is the comma-ok flag of the map read. *)
Definition getAppName (c : Config) (pod : Pod) : string * bool :=
  match Labels pod !! SparkAppNameLabel c with
  | Some appName => (appName, true)
  | None => (EmptyString, false)
  end.

(** Modelled from the spec: [createMetaNamespaceKey] is declared in the
    controller's utility file; the key is the namespace, a slash, the name. *)
Definition createMetaNamespaceKey (namespace name : string) : string :=
  namespace +:+ "/" +:+ name.

Definition enqueueSparkAppForUpdate (s : sparkPodEventHandler) (pod : Pod)
    (queue : list string) : list string :=
  let '(appName, exists_) := getAppName (config s) pod in
  if negb exists_ then queue
  else
    let stale :=
      match Labels pod !! SubmissionIDLabel (config s) with
      | Some submissionID =>
          match applicationLister s (PodNamespace pod) appName with
          | Err _ => true
          | Ok app => negb (String.eqb (SubmissionID (Status app)) submissionID)
          end
      | None => false
      end in
    if stale then queue
    else enqueueFunc (createMetaNamespaceKey (PodNamespace pod) appName) queue.

(** The unchecked type assertion of an [interface{}] to [*apiv1.Pod]: it
    panics on every other dynamic type, the nil interface included. *)
Definition assertPod (obj : Object) : Outcome (option Pod) :=
  match obj with
  | PodObject p => Returned p
  | _ => Panicked
  end.

(** [onPodAdded] formats [pod.GetName()] for the log line before routing,
    which dereferences the pointer. *)
Definition onPodAdded (s : sparkPodEventHandler) (obj : Object)
    (queue : list string) : Outcome (list string) :=
  match assertPod obj with
  | Panicked => Panicked
  | Returned None => Panicked
  | Returned (Some pod) => Returned (enqueueSparkAppForUpdate s pod queue)
  end.

Definition onPodUpdated (s : sparkPodEventHandler) (old updated : Object)
    (queue : list string) : Outcome (list string) :=
  match assertPod old with
  | Panicked => Panicked
  | Returned oldPod =>
      match assertPod updated with
      | Panicked => Panicked
      | Returned updatedPod =>
          match updatedPod, oldPod with
          | Some updatedPod, Some oldPod =>
              if String.eqb (ResourceVersion updatedPod) (ResourceVersion oldPod)
              then Returned queue
              else Returned (enqueueSparkAppForUpdate s updatedPod queue)
          | _, _ => Panicked
          end
      end
  end.

(** The type switch of [onPodDeleted].  [deletedPod] stays nil when no case
    matches; in the tombstone case the wrapped [Obj] goes through the
    unchecked assertion. *)
Definition unwrapDeleted (obj : Object) : Outcome (option Pod) :=
  match obj with
  | PodObject p => Returned p
  | DeletedFinalStateUnknown _ deletedObj => assertPod deletedObj
  | _ => Returned None
  end.

Definition onPodDeleted (s : sparkPodEventHandler) (obj : Object)
    (queue : list string) : Outcome (list string) :=
  match unwrapDeleted obj with
  | Panicked => Panicked
  | Returned None => Returned queue
  | Returned (Some deletedPod) => Returned (enqueueSparkAppForUpdate s deletedPod queue)
  end.

(** The three notifications the informer delivers. *)
Inductive PodEvent : Type :=
| Added (obj : Object)
| Updated (old updated : Object)
| Deleted (obj : Object).

Definition handle (s : sparkPodEventHandler) (ev : PodEvent) (queue : list string)
    : Outcome (list string) :=
  match ev with
  | Added obj => onPodAdded s obj queue
  | Updated old updated => onPodUpdated s old updated queue
  | Deleted obj => onPodDeleted s obj queue
  end.

(** [carries ev pod]: the notification [ev] is about [pod], in each of the
    shapes the informer uses for a pod. *)
Inductive carries : PodEvent → Pod → Prop :=
| carries_added pod : carries (Added (PodObject (Some pod))) pod
| carries_updated oldPod pod :
    carries (Updated (PodObject (Some oldPod)) (PodObject (Some pod))) pod
| carries_deleted pod : carries (Deleted (PodObject (Some pod))) pod
| carries_tombstone key pod :
    carries (Deleted (DeletedFinalStateUnknown key (PodObject (Some pod)))) pod.

End PodEventHandler.

(** ** pkg/webhook/webhook.go *)

Module Webhook.

Record GroupVersionResource := mkGVR {
  Group : string;
  Version : string;
  Resource : string
}.

#[global] Instance GroupVersionResource_eq_dec : EqDecision GroupVersionResource.
Proof. solve_decision. Defined.

(** [podResource]: the core group is the empty string and its version is
    "v1", the same values [selfRegistration] lists in its rule. *)
Definition podResource : GroupVersionResource :=
  {| Group := ""; Version := "v1"; Resource := "pods" |}.

(** [apiv1.NamespaceAll]. *)
Definition NamespaceAll : string := "".

Definition StatusInternalServerError : Z := 500.
Definition StatusBadRequest : Z := 400.
Definition StatusUnsupportedMediaType : Z := 415.

(** [metav1.Status], the two fields the webhook sets. *)
Record MetaStatus := mkMetaStatus {
  Message : string;
  Code : Z
}.

Inductive PatchType : Type := PatchTypeJSONPatch.

(** [admissionv1beta1.AdmissionRequest]; [ObjectRaw] is [Object.Raw]. *)
Record AdmissionRequest := mkRequest {
  RequestUID : string;
  RequestResource : GroupVersionResource;
  RequestNamespace : string;
  ObjectRaw : list Byte.byte
}.

(** [admissionv1beta1.AdmissionResponse]; a nil [Patch], [PatchType] or
    [Result] is [None]. *)
Record AdmissionResponse := mkResponse {
  UID : string;
  Allowed : bool;
  Result : option MetaStatus;
  Patch : option (list Byte.byte);
  PatchType_ : option PatchType
}.

Record AdmissionReview := mkReview {
  Request : option AdmissionRequest;
  Response : option AdmissionResponse
}.

(** One entry of the JSON patch; the type is declared in the package's
    patch file.  [Value] stands for the Go [interface{}] payload. *)
Record patchOperation := mkPatchOp {
  Op : string;
  Path : string;
  Value : string
}.

(** The receiver [WebHook] with the package-level collaborators its request
    path calls:
    - [lister ns name] is [lister.SparkApplications(ns).Get(name)];
    - [Decode body] is [deserializer.Decode(body, nil, review)] on a fresh
      review: the review as the call leaves it, and the error if any;
    - [jsonUnmarshalPod] is [json.Unmarshal(raw, pod)];
    - [jsonMarshalPatch] and [jsonMarshalReview] are [json.Marshal];
    - [Write] is [w.Write(resp)], returning the error if any;
    - [IsLaunchedBySparkOperator], [IsDriverPod], [IsExecutorPod] are the
      label tests of the util package;
    - [patchSparkPod] is the patch computation of the package's patch file. *)
Record WebHook := mkWebHook {
  lister : string → string → result SparkApplication;
  sparkJobNamespace : string;
  SparkAppNameLabel : string;
  Decode : list Byte.byte → AdmissionReview * option Error;
  jsonUnmarshalPod : list Byte.byte → result Pod;
  jsonMarshalPatch : list patchOperation → result (list Byte.byte);
  jsonMarshalReview : AdmissionReview → result (list Byte.byte);
  Write : list Byte.byte → option Error;
  IsLaunchedBySparkOperator : Pod → bool;
  IsDriverPod : Pod → bool;
  IsExecutorPod : Pod → bool;
  patchSparkPod : Pod → SparkApplication → list patchOperation
}.

(** An [*http.Request]: [Body] is [None] for a nil body, otherwise what
    [ioutil.ReadAll] returns on it; [ContentType] is
    [r.Header.Get("Content-Type")]. *)
Record HttpRequest := mkHttpRequest {
  Body : option (result (list Byte.byte));
  ContentType : string
}.

(** The calls [serve] makes on its [http.ResponseWriter]. *)
Inductive WriterCall : Type :=
| HttpError (error : string) (code : Z)
| WriteBody (resp : list Byte.byte).

Definition toAdmissionResponse (err : Error) : AdmissionResponse :=
  {| UID := "";
     Allowed := true;
     Result := Some {| Message := err; Code := StatusInternalServerError |};
     Patch := None;
     PatchType_ := None |}.

Definition inSparkJobNamespace (podNs sparkJobNamespace : string) : bool :=
  if String.eqb sparkJobNamespace NamespaceAll then true
  else String.eqb podNs sparkJobNamespace.

Definition isSparkPod (wh : WebHook) (pod : Pod) : bool :=
  IsLaunchedBySparkOperator wh pod && (IsDriverPod wh pod || IsExecutorPod wh pod).

(** [mutatePods] returns a possibly nil response; reading
    [review.Request.Resource] through a nil [Request] panics. *)
Definition mutatePods (wh : WebHook) (review : AdmissionReview)
    : Outcome (option AdmissionResponse) :=
  match Request review with
  | None => Panicked
  | Some request =>
      if negb (bool_decide (RequestResource request = podResource)) then Returned None
      else
        match jsonUnmarshalPod wh (ObjectRaw request) with
        | Err err => Returned (Some (toAdmissionResponse err))
        | Ok pod =>
            let response :=
              {| UID := ""; Allowed := true; Result := None;
                 Patch := None; PatchType_ := None |} in
            if negb (isSparkPod wh pod)
               || negb (inSparkJobNamespace (RequestNamespace request) (sparkJobNamespace wh))
            then Returned (Some response)
            else
              let appName := map_index (Labels pod) (SparkAppNameLabel wh) in
              if String.eqb appName "" then Returned (Some response)
              else
                match lister wh (RequestNamespace request) appName with
                | Err err => Returned (Some (toAdmissionResponse err))
                | Ok app =>
                    let patchOps := patchSparkPod wh pod app in
                    if (0 <? Z.of_nat (length patchOps)) then
                      match jsonMarshalPatch wh patchOps with
                      | Err err => Returned (Some (toAdmissionResponse err))
                      | Ok patchBytes =>
                          Returned (Some
                            {| UID := ""; Allowed := true; Result := None;
                               Patch := Some patchBytes;
                               PatchType_ := Some PatchTypeJSONPatch |})
                      end
                    else Returned (Some response)
                end
        end
  end.

(** [response.Response.UID = review.Request.UID]. *)
Definition setUID (uid : string) (r : AdmissionResponse) : AdmissionResponse :=
  {| UID := uid; Allowed := Allowed r; Result := Result r;
     Patch := Patch r; PatchType_ := PatchType_ r |}.

(** The first part of [serve], up to the point where the [response] review
    is assembled: either the one [http.Error] call that ends the request or
    the review to be written. *)
Definition serveReview (wh : WebHook) (r : HttpRequest)
    : Outcome (WriterCall + AdmissionReview) :=
  match
    match Body r with
    | None => Ok []
    | Some read => read
    end
  with
  | Err _ =>
      Returned (inl (HttpError "failed to read the request body" StatusInternalServerError))
  | Ok body =>
      if (Z.of_nat (length body) =? 0) then
        Returned (inl (HttpError "empty request body" StatusBadRequest))
      else if negb (String.eqb (ContentType r) "application/json") then
        Returned (inl (HttpError "invalid Content-Type, expected `application/json`"
                         StatusUnsupportedMediaType))
      else
        let '(review, decodeErr) := Decode wh body in
        let reviewResponse :=
          match decodeErr with
          | Some err => Returned (Some (toAdmissionResponse err))
          | None => mutatePods wh review
          end in
        match reviewResponse with
        | Panicked => Panicked
        | Returned None => Returned (inr {| Request := None; Response := None |})
        | Returned (Some reviewResponse) =>
            Returned (inr
              {| Request := None;
                 Response := Some
                   match Request review with
                   | Some request => setUID (RequestUID request) reviewResponse
                   | None => reviewResponse
                   end |})
        end
  end.

(** The last part of [serve]: marshal the review and write it. *)
Definition writeResponse (wh : WebHook) (response : AdmissionReview) : list WriterCall :=
  match jsonMarshalReview wh response with
  | Err err => [HttpError err StatusInternalServerError]
  | Ok resp =>
      match Write wh resp with
      | Some err => [WriteBody resp; HttpError err StatusInternalServerError]
      | None => [WriteBody resp]
      end
  end.

Definition serve (wh : WebHook) (r : HttpRequest) : Outcome (list WriterCall) :=
  match serveReview wh r with
  | Panicked => Panicked
  | Returned (inl call) => Returned [call]
  | Returned (inr response) => Returned (writeResponse wh response)
  end.

(** The response [mutatePods] starts from: allowed, nothing attached. *)
Definition allowedResponse (uid : string) : AdmissionResponse :=
  {| UID := uid; Allowed := true; Result := None; Patch := None; PatchType_ := None |}.

(** [explains err resp]: the response allows the pod and carries the text of
    [err] as its message. *)
Definition explains (err : Error) (resp : AdmissionResponse) : Prop :=
  Allowed resp = true ∧ Message <$> Result resp = Some err.

End Webhook.

(** ** pkg/controller/sparkapplication/sparkapp_metrics.go *)

Module Metrics.

(** The metric vectors of [sparkAppMetrics], by kind. *)
Inductive Counter : Type :=
| sparkAppSubmitCount
| sparkAppSuccessCount
| sparkAppFailureCount
| sparkAppFailedSubmissionCount
| sparkAppExecutorFailureCount
| sparkAppExecutorSuccessCount.

Inductive Gauge : Type :=
| sparkAppRunningCount
| sparkAppExecutorRunningCount.

Inductive Summary : Type :=
| sparkAppSuccessExecutionTime
| sparkAppFailureExecutionTime.

(** The calls [exportMetrics] makes on the metric vectors.  Every call is
    made with the same [metricLabels], which are left out.
    - [CounterInc c]: the statement that looks the counter up with
      [sm.c.GetMetricWith(metricLabels)] and calls [Inc] on it (the failed
      lookup is only logged);
    - [GaugeInc g], [GaugeDec g]: [sm.g.Inc(metricLabels)],
      [sm.g.Dec(metricLabels)];
    - [Observe s v]: the statement that looks the summary up and calls
      [Observe(float64(v))] on it, [v] being the integer the code converts. *)
Inductive MetricCall : Type :=
| CounterInc (c : Counter)
| GaugeInc (g : Gauge)
| GaugeDec (g : Gauge)
| Observe (s : Summary) (v : Z).

#[global] Instance Counter_eq_dec : EqDecision Counter.
Proof. solve_decision. Defined.
#[global] Instance Gauge_eq_dec : EqDecision Gauge.
Proof. solve_decision. Defined.
#[global] Instance Summary_eq_dec : EqDecision Summary.
Proof. solve_decision. Defined.
#[global] Instance MetricCall_eq_dec : EqDecision MetricCall.
Proof. solve_decision. Defined.

(** [time.Time.IsZero]. *)
Definition IsZero (t : Time) : bool := t =? 0.

Definition minDuration : Z := - 2 ^ 63.
Definition maxDuration : Z := 2 ^ 63 - 1.

(** [time.Time.Sub]: the difference in nanoseconds, saturated to the range
    of [time.Duration]. *)
Definition Sub (t u : Time) : Z :=
  let d := t - u in
  if d <? minDuration then minDuration
  else if maxDuration <? d then maxDuration
  else d.

(** [time.Microsecond], in nanoseconds. *)
Definition Microsecond : Z := 1000.

(** The guarded duration observation shared by the [SucceedingState] and
    [FailingState] cases; Go's integer division truncates. *)
Definition observeExecutionTime (s : Summary) (newStatus : SparkApplicationStatus)
    : list MetricCall :=
  if negb (IsZero (LastSubmissionAttemptTime newStatus))
     && negb (IsZero (TerminationTime newStatus))
  then
    let d := Sub (TerminationTime newStatus) (LastSubmissionAttemptTime newStatus) in
    [Observe s (Z.quot d Microsecond)]
  else [].

(** The first half of [exportMetrics]: the application state switch. *)
Definition exportAppStateMetrics (oldStatus newStatus : SparkApplicationStatus)
    : list MetricCall :=
  let oldState := AppState oldStatus in
  let newState := AppState newStatus in
  if negb (bool_decide (newState = oldState)) then
    match newState with
    | SubmittedState => [CounterInc sparkAppSubmitCount]
    | RunningState => [GaugeInc sparkAppRunningCount]
    | SucceedingState =>
        observeExecutionTime sparkAppSuccessExecutionTime newStatus
        ++ [GaugeDec sparkAppRunningCount; CounterInc sparkAppSuccessCount]
    | FailingState =>
        observeExecutionTime sparkAppFailureExecutionTime newStatus
        ++ [GaugeDec sparkAppRunningCount; CounterInc sparkAppFailureCount]
    | FailedSubmissionState => [CounterInc sparkAppFailedSubmissionCount]
    | _ => []
    end
  else [].

(** The body of the executor loop for one map entry.  The comparison
    [oldApp.Status.ExecutorState[executor] != newExecState] is a lookup that
    differs from [Some newExecState]. *)
Definition exportExecutorMetrics (oldStates : gmap string ExecutorState)
    (entry : string * ExecutorState) : list MetricCall :=
  let '(executor, newExecState) := entry in
  let changed := negb (bool_decide (oldStates !! executor = Some newExecState)) in
  match newExecState with
  | ExecutorRunningState =>
      if changed then [GaugeInc sparkAppExecutorRunningCount] else []
  | ExecutorCompletedState =>
      if changed
      then [GaugeDec sparkAppExecutorRunningCount; CounterInc sparkAppExecutorSuccessCount]
      else []
  | ExecutorFailedState =>
      if changed
      then [GaugeDec sparkAppExecutorRunningCount; CounterInc sparkAppExecutorFailureCount]
      else []
  | _ => []
  end.

(** The second half: the loop over [newApp.Status.ExecutorState].  Go leaves
    the iteration order of a map open; [map_to_list] fixes one. *)
Definition exportExecutorStateMetrics (oldStatus newStatus : SparkApplicationStatus)
    : list MetricCall :=
  map_to_list (ExecutorStates newStatus) ≫= exportExecutorMetrics (ExecutorStates oldStatus).

Definition exportMetrics (oldApp newApp : SparkApplication) : list MetricCall :=
  exportAppStateMetrics (Status oldApp) (Status newApp)
  ++ exportExecutorStateMetrics (Status oldApp) (Status newApp).

(** The duration observations among a list of calls. *)
Definition observations (calls : list MetricCall) : list (Summary * Z) :=
  calls ≫= λ c, match c with Observe s v => [(s, v)] | _ => [] end.

(** How often a call occurs in a list of calls. *)
Definition count_call (c : MetricCall) (calls : list MetricCall) : nat :=
  length (filter (λ c', c' = c) calls).

(** The number of entries of the new executor map that are in state [s]
    while the old map does not record [s] for that executor. *)
Definition transitions_to (s : ExecutorState) (oldStates newStates : gmap string ExecutorState)
    : nat :=
  length (filter (λ entry, entry.2 = s ∧ oldStates !! entry.1 ≠ Some s)
            (map_to_list newStates)).

End Metrics.

(** ** internal/scheduler/yunikorn: the gang-scheduling adapter

    The adapter's own file is not among the sources; its test file,
    scheduler_test.go, is.  The definitions below follow the specification
    of the adapter, and the fixtures further down are the inputs and the
    expected task groups of [TestSchedule] and [TestMergeNodeSelector]. *)


Module Yunikorn.

Inductive SparkApplicationType : Type :=
| SparkApplicationTypeJava
| SparkApplicationTypeScala
| SparkApplicationTypePython
| SparkApplicationTypeR.

(** A role config (driver or executor): the core count, the optional
    core-request string, the memory amount and the optional explicit memory
    overhead, both in bytes, and the role's node selector. *)
Record RoleConfig := mkRole {
  Cores : Z;
  CoreRequest : option string;
  Memory : Z;
  MemoryOverhead : option Z;
  RoleNodeSelector : gmap string string
}.

Record DynamicAllocation := mkDynamicAllocation {
  Enabled : bool;
  InitialExecutors : option Z;
  MinExecutors : option Z;
  MaxExecutors : option Z
}.

Record SparkApplicationSpec := mkSpec {
  Type_ : SparkApplicationType;
  MemoryOverheadFactor : option Q;
  NodeSelector : gmap string string;
  Driver : RoleConfig;
  Executor : RoleConfig;
  Instances : option Z;
  DynamicAllocation_ : option DynamicAllocation
}.

(** A task group, without the affinity, tolerations and labels, which are
    copied from the role config unchanged.  A nil [NodeSelector] is [None]. *)
Record taskGroup := mkTaskGroup {
  Name : string;
  MinMember : Z;
  MinResource : gmap string string;
  TaskGroupNodeSelector : option (gmap string string)
}.

Definition MiB : Z := 1024 * 1024.
Definition GiB : Z := 1024 * MiB.

(** The floor of the memory overhead: 384 MiB. *)
Definition minMemoryOverhead : Z := 384 * MiB.

Definition isJavaLang (appType : SparkApplicationType) : bool :=
  match appType with
  | SparkApplicationTypeJava | SparkApplicationTypeScala => true
  | _ => false
  end.

(** Modelled from the spec: the overhead factor of an application, "a lower
    default for JVM-hosted languages, a higher default for non-JVM
    languages", "overridden wholesale by an application-level explicit
    factor when present".  The JVM default 0.1 is the one of the
    specification's example; the non-JVM default 0.4 is the one of the
    comments of [TestSchedule]. *)
Definition memoryOverheadFactor (spec : SparkApplicationSpec) : Q :=
  match MemoryOverheadFactor spec with
  | Some factor => factor
  | None => if isJavaLang (Type_ spec) then (1 # 10)%Q else (4 # 10)%Q
  end.

Definition Qmax (a b : Q) : Q := if Qle_bool a b then b else a.

(** Modelled from the spec: "explicit per-role overhead, if set, is added
    verbatim to the base memory; otherwise overhead = max(384 MiB, base
    memory x overhead-factor)".  In bytes, as an exact rational. *)
Definition memoryOverheadBytes (role : RoleConfig) (factor : Q) : Q :=
  match MemoryOverhead role with
  | Some overhead => inject_Z overhead
  | None => Qmax (inject_Z minMemoryOverhead) (inject_Z (Memory role) * factor)%Q
  end.

Definition memoryRequestBytes (role : RoleConfig) (factor : Q) : Q :=
  (inject_Z (Memory role) + memoryOverheadBytes role factor)%Q.

(** The memory quantity string for a rounding of the number of MiB. *)
Definition memoryRequestWith (round : Q → Z) (role : RoleConfig) (factor : Q) : string :=
  pretty (round (memoryRequestBytes role factor / inject_Z MiB)%Q) +:+ "Mi".

(** Modelled from the spec: "Base memory plus overhead is rounded up to
    whole MiB before being emitted as a <N>Mi string". *)
Definition memoryRequest_spec : RoleConfig → Q → string := memoryRequestWith Qceiling.

(** Modelled from the spec: the same quantity, with the rounding that the
    expected values of [TestSchedule] ask for: down to whole MiB. *)
Definition memoryRequest : RoleConfig → Q → string := memoryRequestWith Qfloor.

(** Modelled from the spec: "an explicit core-request string takes
    precedence over a plain core count; the count, if used, is emitted as a
    bare integer string; the request, if used, is passed through verbatim". *)
Definition cpuRequest (role : RoleConfig) : string :=
  match CoreRequest role with
  | Some coreRequest => coreRequest
  | None => pretty (Cores role)
  end.

Definition minResourceWith (round : Q → Z) (role : RoleConfig) (factor : Q)
    : gmap string string :=
  <["memory" := memoryRequestWith round role factor]> {["cpu" := cpuRequest role]}.

Definition minResource_spec : RoleConfig → Q → gmap string string :=
  minResourceWith Qceiling.

Definition minResource : RoleConfig → Q → gmap string string :=
  minResourceWith Qfloor.

(** Modelled from the spec: "the maximum of: the declared static instance
    count, the dynamic-allocation minimum-executors setting, and the
    dynamic-allocation initial-executors setting (all treated as zero/absent
    when unset)". *)
Definition executorMinMember (spec : SparkApplicationSpec) : Z :=
  let instances := default 0 (Instances spec) in
  let minExecutors := default 0 (DynamicAllocation_ spec ≫= MinExecutors) in
  let initialExecutors := default 0 (DynamicAllocation_ spec ≫= InitialExecutors) in
  Z.max instances (Z.max minExecutors initialExecutors).

(** Modelled from the spec: "application-level selector ∪ role-level
    selector, role-level wins on key collision; result is the nil/absent map
    (not an empty map) if the merge is empty".  The copy of a map into
    another is a fold of inserts. *)
Definition mergeNodeSelector (appNodeSelector podNodeSelector : gmap string string)
    : option (gmap string string) :=
  let nodeSelector :=
    map_fold (λ k v m, <[k := v]> m)
      (map_fold (λ k v m, <[k := v]> m) ∅ appNodeSelector) podNodeSelector in
  if Nat.eqb (size nodeSelector) 0 then None else Some nodeSelector.

(** The two task groups of an application, driver first. *)
Definition taskGroupsWith (round : Q → Z) (spec : SparkApplicationSpec) : list taskGroup :=
  let factor := memoryOverheadFactor spec in
  [ {| Name := "spark-driver";
       MinMember := 1;
       MinResource := minResourceWith round (Driver spec) factor;
       TaskGroupNodeSelector :=
         mergeNodeSelector (NodeSelector spec) (RoleNodeSelector (Driver spec)) |};
    {| Name := "spark-executor";
       MinMember := executorMinMember spec;
       MinResource := minResourceWith round (Executor spec) factor;
       TaskGroupNodeSelector :=
         mergeNodeSelector (NodeSelector spec) (RoleNodeSelector (Executor spec)) |} ].

Definition taskGroups_spec : SparkApplicationSpec → list taskGroup := taskGroupsWith Qceiling.
Definition taskGroups : SparkApplicationSpec → list taskGroup := taskGroupsWith Qfloor.

End Yunikorn.

(** ** internal/scheduler/yunikorn/scheduler_test.go

    The table of [TestSchedule], with memory strings written as byte
    counts ("512m" is 512 MiB, "8g" is 8 GiB), and the table of
    [TestMergeNodeSelector]. *)

Module YunikornTest.
Import Yunikorn.

Definition role (cores : Z) (coreRequest : option string) (memory : Z)
    (memoryOverhead : option Z) (nodeSelector : gmap string string) : RoleConfig :=
  {| Cores := cores; CoreRequest := coreRequest; Memory := memory;
     MemoryOverhead := memoryOverhead; RoleNodeSelector := nodeSelector |}.

Definition resources (cpu memory : string) : gmap string string :=
  <["memory" := memory]> {["cpu" := cpu]}.

(** "spark-pi-yunikorn" *)
Definition spark_pi_app : SparkApplicationSpec :=
  {| Type_ := SparkApplicationTypeScala;
     MemoryOverheadFactor := None;
     NodeSelector := ∅;
     Driver := role 1 None (512 * MiB) None ∅;
     Executor := role 1 None (512 * MiB) None ∅;
     Instances := Some 2;
     DynamicAllocation_ := None |}.

Definition spark_pi_expected : list taskGroup :=
  [ {| Name := "spark-driver"; MinMember := 1;
       MinResource := resources "1" "896Mi"; TaskGroupNodeSelector := None |};
    {| Name := "spark-executor"; MinMember := 2;
       MinResource := resources "1" "896Mi"; TaskGroupNodeSelector := None |} ].

(** "Dynamic allocation and memory overhead" *)
Definition dynamic_allocation_app : SparkApplicationSpec :=
  {| Type_ := SparkApplicationTypePython;
     MemoryOverheadFactor := Some (3 # 10)%Q;
     NodeSelector := ∅;
     Driver := role 4 (Some "2000m") (8 * GiB) None ∅;
     Executor := role 8 None (64 * GiB) (Some (2 * GiB)) ∅;
     Instances := Some 4;
     DynamicAllocation_ :=
       Some {| Enabled := true; InitialExecutors := Some 8;
               MinExecutors := Some 2; MaxExecutors := None |} |}.

Definition dynamic_allocation_expected : list taskGroup :=
  [ {| Name := "spark-driver"; MinMember := 1;
       MinResource := resources "2000m" "10649Mi"; TaskGroupNodeSelector := None |};
    {| Name := "spark-executor"; MinMember := 8;
       MinResource := resources "8" "67584Mi"; TaskGroupNodeSelector := None |} ].

(** "Node selectors, tolerations, affinity and labels" *)
Definition node_selectors_app : SparkApplicationSpec :=
  {| Type_ := SparkApplicationTypePython;
     MemoryOverheadFactor := None;
     NodeSelector := {["key" := "value"]};
     Driver := role 1 None (1 * GiB) None
                 (<["key2" := "value2"]> {["key" := "newvalue"]});
     Executor := role 1 None (1 * GiB) None ∅;
     Instances := Some 1;
     DynamicAllocation_ := None |}.

Definition node_selectors_expected : list taskGroup :=
  [ {| Name := "spark-driver"; MinMember := 1;
       MinResource := resources "1" "1433Mi";
       TaskGroupNodeSelector := Some (<["key2" := "value2"]> {["key" := "newvalue"]}) |};
    {| Name := "spark-executor"; MinMember := 1;
       MinResource := resources "1" "1433Mi";
       TaskGroupNodeSelector := Some {["key" := "value"]} |} ].

(** The rows of [TestMergeNodeSelector]: application-level selector,
    role-level selector, expected result. *)
Definition merge_cases
    : list (gmap string string * gmap string string * option (gmap string string)) :=
  [ (∅, ∅, None);
    ({["key1" := "value1"]}, ∅, Some {["key1" := "value1"]});
    (∅, {["key1" := "value1"]}, Some {["key1" := "value1"]});
    ({["key1" := "value1"]}, {["key2" := "value2"]},
      Some (<["key2" := "value2"]> {["key1" := "value1"]}));
    ({["key1" := "value1"]}, <["key2" := "value2"]> {["key1" := "value2"]},
      Some (<["key2" := "value2"]> {["key1" := "value2"]})) ].

End YunikornTest.

(** ** pkg/webhook/certs.go *)

Module Certs.

Section CertProvider.
(** [Disk] is a state of the file system and [Certificate] a parsed
    [tls.Certificate]; [LoadX509KeyPair disk certFile keyFile] is
    [tls.LoadX509KeyPair] run against that state. *)
Context {Disk Certificate : Type}.
Variable LoadX509KeyPair : Disk → string → string → result Certificate.

(** The receiver [certProvider].  [currentCert] is the certificate the
    pointer refers to; [stopChannelClosed] and [tickerStopped] are the
    states of [stopChannel] and [ticker].  The mutex does not appear:
    calls are taken one at a time. *)
Record certProvider := mkCertProvider {
  serverCertFile : string;
  serverKeyFile : string;
  caCertFile : string;
  reloadInterval : Z;
  currentCert : Certificate;
  stopChannelClosed : bool;
  tickerStopped : bool
}.

(** [time.NewTicker] panics on a duration that is not positive; it is
    reached only after the key pair has loaded. *)
Definition NewCertProvider (disk : Disk)
    (serverCertFile serverKeyFile caCertFile : string) (reloadInterval : Z)
    : Outcome (result certProvider) :=
  match LoadX509KeyPair disk serverCertFile serverKeyFile with
  | Err err => Returned (Err err)
  | Ok cert =>
      if reloadInterval <=? 0 then Panicked
      else Returned (Ok
        {| serverCertFile := serverCertFile;
           serverKeyFile := serverKeyFile;
           caCertFile := caCertFile;
           reloadInterval := reloadInterval;
           currentCert := cert;
           stopChannelClosed := false;
           tickerStopped := false |})
  end.

Definition updateCert (disk : Disk) (c : certProvider) : certProvider :=
  match LoadX509KeyPair disk (serverCertFile c) (serverKeyFile c) with
  | Err _ => c
  | Ok cert =>
      {| serverCertFile := serverCertFile c;
         serverKeyFile := serverKeyFile c;
         caCertFile := caCertFile c;
         reloadInterval := reloadInterval c;
         currentCert := cert;
         stopChannelClosed := stopChannelClosed c;
         tickerStopped := tickerStopped c |}
  end.

(** What the [select] of the goroutine started by [Start] receives: a
    value from the stop channel, or a tick, taken while the disk is in
    the given state. *)
Inductive Received : Type :=
| StopReceived
| TickReceived (disk : Disk).

(** The goroutine of [Start], run over what its [select] receives. *)
Fixpoint reloadLoop (received : list Received) (c : certProvider) : certProvider :=
  match received with
  | [] => c
  | StopReceived :: _ => c
  | TickReceived disk :: received => reloadLoop received (updateCert disk c)
  end.

(** [GetCertificate] of [tlsConfig]: the current certificate, never an
    error. *)
Definition GetCertificate (c : certProvider) : result Certificate :=
  Ok (currentCert c).

(** [Stop]: closing a closed channel panics. *)
Definition Stop (c : certProvider) : Outcome certProvider :=
  if stopChannelClosed c then Panicked
  else Returned
    {| serverCertFile := serverCertFile c;
       serverKeyFile := serverKeyFile c;
       caCertFile := caCertFile c;
       reloadInterval := reloadInterval c;
       currentCert := currentCert c;
       stopChannelClosed := true;
       tickerStopped := true |}.

(** The certificates that load, in order, on the ticks received before
    the first stop. *)
Fixpoint loadedBeforeStop (certFile keyFile : string) (received : list Received)
    : list Certificate :=
  match received with
  | [] => []
  | StopReceived :: _ => []
  | TickReceived disk :: received =>
      match LoadX509KeyPair disk certFile keyFile with
      | Ok cert => cert :: loadedBeforeStop certFile keyFile received
      | Err _ => loadedBeforeStop certFile keyFile received
      end
  end.

End CertProvider.

Arguments certProvider : clear implicits.

End Certs.

(** ** pkg/webhook/webhook.go: registration with the API server *)

Module Registration.

Inductive OperationType : Type := OperationAll | Create | Update | Delete | Connect.
Inductive FailurePolicyType : Type := Ignore | Fail.

Record Rule := mkRule {
  APIGroups : list string;
  APIVersions : list string;
  Resources : list string
}.

Record RuleWithOperations := mkRuleWithOperations {
  Operations : list OperationType;
  Rule_ : Rule
}.

Record ServiceReference := mkServiceReference {
  ServiceNamespace : string;
  ServiceName : string;
  ServicePath : option string
}.

(** A nil [CABundle] is [None]; [ioutil.ReadFile] never returns one. *)
Record WebhookClientConfig := mkClientConfig {
  Service : option ServiceReference;
  CABundle : option (list Byte.byte)
}.

(** [v1beta1.Webhook].  [OtherFields] stands for the fields the operator
    never sets (selectors, side effects, timeout, ...), by name and value;
    it is empty when they all have their zero value. *)
Record Webhook_ := mkWebhook {
  Name : string;
  Rules : list RuleWithOperations;
  ClientConfig : WebhookClientConfig;
  FailurePolicy : option FailurePolicyType;
  OtherFields : list (string * string)
}.

(** [v1beta1.MutatingWebhookConfiguration]: the name, the rest of the
    object metadata, and the webhooks. *)
Record MutatingWebhookConfiguration := mkConfiguration {
  ConfigName : string;
  ConfigMeta : list (string * string);
  Webhooks : list Webhook_
}.

#[global] Instance byte_eq_dec : EqDecision Byte.byte := Byte.byte_eq_dec.
#[global] Instance OperationType_eq_dec : EqDecision OperationType.
Proof. solve_decision. Defined.
#[global] Instance FailurePolicyType_eq_dec : EqDecision FailurePolicyType.
Proof. solve_decision. Defined.
#[global] Instance Rule_eq_dec : EqDecision Rule.
Proof. solve_decision. Defined.
#[global] Instance RuleWithOperations_eq_dec : EqDecision RuleWithOperations.
Proof. solve_decision. Defined.
#[global] Instance ServiceReference_eq_dec : EqDecision ServiceReference.
Proof. solve_decision. Defined.
#[global] Instance WebhookClientConfig_eq_dec : EqDecision WebhookClientConfig.
Proof. solve_decision. Defined.
#[global] Instance Webhook_eq_dec : EqDecision Webhook_.
Proof. solve_decision. Defined.

(** An error of the API client; [IsNotFound] is [errors.IsNotFound]. *)
Record ApiError := mkApiError {
  IsNotFound : bool;
  ErrorText : Error
}.

(** The client for [MutatingWebhookConfigurations] and the file system, as
    the answers they give: [Get] returns the object pointer and the error,
    the three writes return their error, [ReadFile] is [ioutil.ReadFile]. *)
Record Client := mkClient {
  Get : string → option MutatingWebhookConfiguration * option ApiError;
  UpdateConfig : MutatingWebhookConfiguration → option ApiError;
  CreateConfig : MutatingWebhookConfiguration → option ApiError;
  DeleteConfig : string → option ApiError;
  ReadFile : string → result (list Byte.byte)
}.

(** The calls made on the client, in order. *)
Inductive ClientCall : Type :=
| GetCall (name : string)
| UpdateCall (config : MutatingWebhookConfiguration)
| CreateCall (config : MutatingWebhookConfiguration)
| DeleteCall (name : string).

Definition webhookName : string := "webhook.sparkoperator.k8s.io".

(** The webhook [selfRegistration] builds from the service reference and
    the CA certificate. *)
Definition webhookFor (serviceRef : option ServiceReference) (caCert : list Byte.byte)
    : Webhook_ :=
  {| Name := webhookName;
     Rules := [ {| Operations := [Create];
                   Rule_ := {| APIGroups := [""]; APIVersions := ["v1"];
                               Resources := ["pods"] |} |} ];
     ClientConfig := {| Service := serviceRef; CABundle := Some caCert |};
     FailurePolicy := Some Ignore;
     OtherFields := [] |}.

(** [selfRegistration]: the calls made on the client and the returned
    error.  [reflect.DeepEqual] on the two webhook lists is equality. *)
Definition selfRegistration (client : Client) (serviceRef : option ServiceReference)
    (caCertFile : string) (webhookConfigName : string)
    : list ClientCall * option Error :=
  let '(existing, getErr) := Get client webhookConfigName in
  match getErr with
  | Some err =>
      if negb (IsNotFound err) then ([GetCall webhookConfigName], Some (ErrorText err))
      else
        match ReadFile client caCertFile with
        | Err err => ([GetCall webhookConfigName], Some err)
        | Ok caCert =>
            let webhookConfig :=
              {| ConfigName := webhookConfigName; ConfigMeta := [];
                 Webhooks := [webhookFor serviceRef caCert] |} in
            ([GetCall webhookConfigName; CreateCall webhookConfig],
             ErrorText <$> CreateConfig client webhookConfig)
        end
  | None =>
      match ReadFile client caCertFile with
      | Err err => ([GetCall webhookConfigName], Some err)
      | Ok caCert =>
          let webhooks := [webhookFor serviceRef caCert] in
          match existing with
          | Some existing =>
              if negb (bool_decide (webhooks = Webhooks existing)) then
                let updated :=
                  {| ConfigName := ConfigName existing;
                     ConfigMeta := ConfigMeta existing;
                     Webhooks := webhooks |} in
                ([GetCall webhookConfigName; UpdateCall updated],
                 ErrorText <$> UpdateConfig client updated)
              else ([GetCall webhookConfigName], None)
          | None =>
              let webhookConfig :=
                {| ConfigName := webhookConfigName; ConfigMeta := [];
                   Webhooks := webhooks |} in
              ([GetCall webhookConfigName; CreateCall webhookConfig],
               ErrorText <$> CreateConfig client webhookConfig)
          end
      end
  end.

Definition selfDeregistration (client : Client) (webhookConfigName : string)
    : list ClientCall * option Error :=
  ([DeleteCall webhookConfigName], ErrorText <$> DeleteConfig client webhookConfigName).

(** The write calls among a list of client calls. *)
Definition isWrite (call : ClientCall) : bool :=
  match call with GetCall _ => false | _ => true end.

Definition writes (calls : list ClientCall) : list ClientCall :=
  List.filter isWrite calls.

End Registration.

(** ** pkg/webhook/webhook.go: the life cycle of the webhook *)

Module Lifecycle.
Import Certs Registration.

Section WebHook.
Context {Disk Certificate : Type}.
Variable LoadX509KeyPair : Disk → string → string → result Certificate.

(** The receiver [WebHook], as far as [New], [Start] and [Stop] use it.
    [serverAddr] is [server.Addr]; [reloading] and [listening] tell
    whether the two goroutines of [Start] have been started, and
    [shutdownCalled] whether [server.Shutdown] has been called. *)
Record WebHook := mkWebHook {
  provider : certProvider Certificate;
  serviceRef : ServiceReference;
  serverAddr : string;
  jobNamespace : string;
  reloading : bool;
  listening : bool;
  shutdownCalled : bool
}.




(** [Stop]; [shutdown] is what [server.Shutdown] returns. *)
Definition Stop (client : Client) (shutdown : option Error) (wh : WebHook)
    (webhookConfigName : string) : Outcome (WebHook * list ClientCall * option Error) :=
  match selfDeregistration client webhookConfigName with
  | (calls, Some err) => Returned (wh, calls, Some err)
  | (calls, None) =>
      match Certs.Stop (provider wh) with
      | Panicked => Panicked
      | Returned stopped =>
          Returned
            ({| provider := stopped; serviceRef := serviceRef wh;
                serverAddr := serverAddr wh; jobNamespace := jobNamespace wh;
                reloading := reloading wh; listening := listening wh;
                shutdownCalled := true |},
             calls, shutdown)
      end
  end.

End WebHook.

Arguments WebHook : clear implicits.

End Lifecycle.

(** Sample objects for the certificate provider and the registration: a
    disk is the list of files that hold a loadable key pair, and a
    certificate is named after its file. *)

Module LifecycleSamples.
Import Registration.

Definition load (disk : list string) (certFile keyFile : string) : result string :=
  if bool_decide (certFile ∈ disk) then Ok certFile else Err "no such file".

Definition sample_provider : Certs.certProvider string :=
  {| Certs.serverCertFile := "server-cert.pem";
     Certs.serverKeyFile := "server-key.pem";
     Certs.caCertFile := "ca-cert.pem";
     Certs.reloadInterval := 15;
     Certs.currentCert := "initial";
     Certs.stopChannelClosed := false;
     Certs.tickerStopped := false |}.

Definition sample_service : ServiceReference :=
  {| ServiceNamespace := "spark-operator"; ServiceName := "spark-webhook";
     ServicePath := Some "/webhook" |}.

Definition not_found : ApiError := {| IsNotFound := true; ErrorText := "not found" |}.
Definition forbidden : ApiError := {| IsNotFound := false; ErrorText := "forbidden" |}.

(** A cluster without the configuration: [Get] answers not-found. *)
Definition fresh_cluster : Client :=
  {| Get name := (Some {| ConfigName := ""; ConfigMeta := []; Webhooks := [] |},
                  Some not_found);
     UpdateConfig config := None;
     CreateConfig config := None;
     DeleteConfig name := None;
     ReadFile file := Ok [Byte.x2d] |}.

(** A cluster that refuses every call. *)
Definition closed_cluster : Client :=
  {| Get name := (None, Some forbidden);
     UpdateConfig config := Some forbidden;
     CreateConfig config := Some forbidden;
     DeleteConfig name := Some forbidden;
     ReadFile file := Ok [Byte.x2d] |}.

(** A cluster that returns the given configuration. *)
Definition cluster_with (config : MutatingWebhookConfiguration) : Client :=
  {| Get name := (Some config, None);
     UpdateConfig config := None;
     CreateConfig config := None;
     DeleteConfig name := None;
     ReadFile file := Ok [Byte.x2d] |}.

Definition registered : MutatingWebhookConfiguration :=
  {| ConfigName := "spark-webhook-config"; ConfigMeta := [];
     Webhooks := [webhookFor (Some sample_service) [Byte.x2d]] |}.

Definition sample_webhook : Lifecycle.WebHook string :=
  {| Lifecycle.provider := sample_provider;
     Lifecycle.serviceRef := sample_service;
     Lifecycle.serverAddr := ":8080";
     Lifecycle.jobNamespace := "";
     Lifecycle.reloading := true;
     Lifecycle.listening := true;
     Lifecycle.shutdownCalled := false |}.


End LifecycleSamples.

(** ** pkg/controller/sparkapplication/sparkapp_metrics.go: metric labels *)

Module MetricLabels.

Section Labels.
(** [util.CreateValidMetricNameLabel prefix name], declared in the util
    package. *)
Variable CreateValidMetricNameLabel : string → string → string.

(** The first loop of [fetchMetricLabels], over the entries of
    [specLabels] in the order the iteration yields them. *)
Definition validSpecLabels (entries : list (string * string)) : gmap string string :=
  foldl (λ valid entry, <[CreateValidMetricNameLabel "" entry.1 := entry.2]> valid)
    ∅ entries.

(** The second loop. *)
Definition metricLabelsFrom (valid : gmap string string) (labels : list string)
    : gmap string string :=
  foldl (λ metricLabels label,
           match valid !! label with
           | Some value => <[label := value]> metricLabels
           | None => <[label := "Unknown"]> metricLabels
           end)
    ∅ labels.

(** [fetchMetricLabels] for a given iteration order of [specLabels]. *)
Definition fetchMetricLabelsIn (entries : list (string * string)) (labels : list string)
    : gmap string string :=
  metricLabelsFrom (validSpecLabels entries) labels.

(** [fetchMetricLabels], with the iteration order [map_to_list] fixes. *)
Definition fetchMetricLabels (specLabels : gmap string string) (labels : list string)
    : gmap string string :=
  fetchMetricLabelsIn (map_to_list specLabels) labels.

End Labels.

End MetricLabels.

(** Sample objects for the metric labels. *)

Module MetricSamples.

(** A stand-in for the util function: dashes become underscores and the
    prefix is put in front. *)
Fixpoint underscore (name : string) : string :=
  match name with
  | EmptyString => EmptyString
  | String c rest =>
      if String.eqb (String c EmptyString) "-" then "_" +:+ underscore rest
      else String c (underscore rest)
  end.

Definition sanitize (prefix name : string) : string := prefix +:+ underscore name.

Definition app_labels : gmap string string :=
  <["app-id" := "test1"]> {["team" := "data"]}.

End MetricSamples.

(** ** The Prometheus monitoring configuration of the application
      controller (configPrometheusMonitoring, buildPrometheusConfigMap) *)

Module Monitoring.
Import Registration.

Record PrometheusSpec := mkPrometheus {
  JmxExporterJar : string;
  Port : option Z;
  ConfigFile : option string;
  Configuration : option string
}.

Record MonitoringSpec := mkMonitoring {
  ExposeDriverMetrics : bool;
  ExposeExecutorMetrics : bool;
  MetricsProperties : option string;
  Prometheus : option PrometheusSpec
}.

(** A driver or executor spec.  A nil [Annotations] map is [None].
    [JavaOptions] is a [*string]: [None] for nil, otherwise the index of
    the string it points to in the store of strings. *)
Record SparkPodSpec := mkPodSpec {
  Annotations : option (gmap string string);
  JavaOptions : option nat
}.

Record Application := mkApplication {
  Namespace : string;
  AppName_ : string;
  SparkConf : option (gmap string string);
  Driver : SparkPodSpec;
  Executor : SparkPodSpec;
  Monitoring_ : option MonitoringSpec
}.

(** A [corev1.ConfigMap]: name, namespace, owner references, the rest of
    the metadata, and the data. *)
Record ConfigMap := mkConfigMap {
  CMName : string;
  CMNamespace : string;
  OwnerReferences : list string;
  CMMeta : list (string * string);
  Data : gmap string string
}.

(** The answers of the controller-runtime client at one attempt: [GetCM]
    fills the object or returns an error. *)
Record Client := mkCMClient {
  GetCM : string → string → ConfigMap + ApiError;
  CreateCM : ConfigMap → option ApiError;
  UpdateCM : ConfigMap → option ApiError
}.

Inductive CMCall : Type :=
| CMGet (namespace name : string)
| CMCreate (configMap : ConfigMap)
| CMUpdate (configMap : ConfigMap).

(** What the function takes from other packages: the constants and helpers
    of the config package, [app.HasPrometheusConfigFile], the controller's
    [getOwnerReference], and [retry.RetryOnConflict(retry.DefaultRetry, fn)],
    which is handed the closure as a function of the attempt number. *)
Record Env := mkEnv {
  DefaultPrometheusJavaAgentPort : Z;
  PrometheusConfigMapMountPath : string;
  DefaultMetricsProperties : string;
  DefaultPrometheusConfiguration : string;
  GetPrometheusConfigMapName : Application → string;
  HasPrometheusConfigFile : Application → bool;
  getOwnerReference : Application → string;
  RetryOnConflict : (nat → option ApiError) → option ApiError
}.

Definition metricsPropertiesKey : string := "metrics.properties".
Definition prometheusConfigKey : string := "prometheus.yaml".
Definition prometheusScrapeAnnotation : string := "prometheus.io/scrape".
Definition prometheusPortAnnotation : string := "prometheus.io/port".
Definition prometheusPathAnnotation : string := "prometheus.io/path".

(** [buildPrometheusConfigMap]; both pointers on the way to the Prometheus
    spec are dereferenced. *)
Definition buildPrometheusConfigMap (env : Env) (app : Application)
    (prometheusConfigMapName : string) : Outcome ConfigMap :=
  match Monitoring_ app with
  | None => Panicked
  | Some monitoring =>
      let metricsProperties :=
        default (DefaultMetricsProperties env) (MetricsProperties monitoring) in
      match Prometheus monitoring with
      | None => Panicked
      | Some prometheus =>
          let prometheusConfig :=
            default (DefaultPrometheusConfiguration env) (Configuration prometheus) in
          Returned
            {| CMName := prometheusConfigMapName;
               CMNamespace := Namespace app;
               OwnerReferences := [getOwnerReference env app];
               CMMeta := [];
               Data := <[prometheusConfigKey := prometheusConfig]>
                         {[metricsPropertiesKey := metricsProperties]} |}
      end
  end.

(** The closure handed to [RetryOnConflict], at one attempt: the calls it
    makes and the error it returns. *)
Definition applyConfigMap (client : Client) (namespace configMapName : string)
    (configMap : ConfigMap) : list CMCall * option ApiError :=
  match GetCM client namespace configMapName with
  | inr err =>
      if IsNotFound err
      then ([CMGet namespace configMapName; CMCreate configMap], CreateCM client configMap)
      else ([CMGet namespace configMapName], Some err)
  | inl cm =>
      let updated :=
        {| CMName := CMName cm; CMNamespace := CMNamespace cm;
           OwnerReferences := OwnerReferences cm; CMMeta := CMMeta cm;
           Data := Data configMap |} in
      ([CMGet namespace configMapName; CMUpdate updated], UpdateCM client updated)
  end.

(** The three annotations written on a role that exposes its metrics; a nil
    map is made first. *)
Definition withPrometheusAnnotations (port : Z) (annotations : option (gmap string string))
    : option (gmap string string) :=
  Some (<[prometheusPathAnnotation := "/metrics"]>
          (<[prometheusPortAnnotation := pretty port]>
             (<[prometheusScrapeAnnotation := "true"]> (default ∅ annotations)))).

(** The block run for a role that exposes its metrics.  [javaOption] is the
    address of the local variable; the store is where the strings behind
    the [*string] pointers live.  A pointer outside the store does not
    occur in a Go program and is given the panic outcome. *)
Definition exposeMetrics (port : Z) (javaOptionText : string) (javaOption : nat)
    (role : SparkPodSpec) (store : list string) : Outcome (SparkPodSpec * list string) :=
  let annotations := withPrometheusAnnotations port (Annotations role) in
  match JavaOptions role with
  | None =>
      Returned ({| Annotations := annotations; JavaOptions := Some javaOption |}, store)
  | Some p =>
      match store !! p with
      | None => Panicked
      | Some options =>
          Returned ({| Annotations := annotations; JavaOptions := Some p |},
                    <[p := options +:+ " " +:+ javaOptionText]> store)
      end
  end.

(** [configPrometheusMonitoring].  The application is changed in place;
    the result is the changed application with the store of strings, or
    the returned error, in which case nothing has been changed.  [client]
    gives the client's answers at each attempt of the retried closure. *)
Definition configPrometheusMonitoring (env : Env) (client : nat → Client)
    (app : Application) (store : list string)
    : Outcome (result (Application * list string)) :=
  match Monitoring_ app with
  | None => Panicked
  | Some monitoring =>
  match Prometheus monitoring with
  | None => Panicked
  | Some prometheus =>
      let port := default (DefaultPrometheusJavaAgentPort env) (Port prometheus) in
      let javaOptionText : Outcome (result string) :=
        if HasPrometheusConfigFile env app then
          match ConfigFile prometheus with
          | None => Panicked
          | Some configFile =>
              Returned (Ok ("-javaagent:" +:+ JmxExporterJar prometheus +:+ "="
                            +:+ pretty port +:+ ":" +:+ configFile))
          end
        else
          let configMapName := GetPrometheusConfigMapName env app in
          match buildPrometheusConfigMap env app configMapName with
          | Panicked => Panicked
          | Returned configMap =>
              match RetryOnConflict env
                      (λ attempt, (applyConfigMap (client attempt) (Namespace app)
                                     configMapName configMap).2) with
              | Some retryErr =>
                  Returned (Err ("failed to apply " +:+ configMapName
                                 +:+ " in namespace " +:+ Namespace app
                                 +:+ ": " +:+ ErrorText retryErr))
              | None =>
                  Returned (Ok ("-javaagent:" +:+ JmxExporterJar prometheus +:+ "="
                                +:+ pretty port +:+ ":"
                                +:+ PrometheusConfigMapMountPath env +:+ "/"
                                +:+ prometheusConfigKey))
              end
          end in
      match javaOptionText with
      | Panicked => Panicked
      | Returned (Err err) => Returned (Err err)
      | Returned (Ok javaOptionText) =>
          let javaOption := length store in
          let store := store ++ [javaOptionText] in
          let metricNamespace := Namespace app +:+ "." +:+ AppName_ app in
          let metricConf :=
            PrometheusConfigMapMountPath env +:+ "/" +:+ metricsPropertiesKey in
          let sparkConf :=
            <["spark.metrics.conf" := metricConf]>
              (<["spark.metrics.namespace" := metricNamespace]>
                 (default ∅ (SparkConf app))) in
          match
            if ExposeDriverMetrics monitoring
            then exposeMetrics port javaOptionText javaOption (Driver app) store
            else Returned (Driver app, store)
          with
          | Panicked => Panicked
          | Returned (driver, store) =>
              match
                if ExposeExecutorMetrics monitoring
                then exposeMetrics port javaOptionText javaOption (Executor app) store
                else Returned (Executor app, store)
              with
              | Panicked => Panicked
              | Returned (executor, store) =>
                  Returned (Ok
                    ({| Namespace := Namespace app;
                        AppName_ := AppName_ app;
                        SparkConf := Some sparkConf;
                        Driver := driver;
                        Executor := executor;
                        Monitoring_ := Monitoring_ app |},
                     store))
              end
          end
      end
  end
  end.

(** The string a [*string] field points to. *)
Definition deref (store : list string) (p : option nat) : option string :=
  p ≫= (store !!.).

(** The java agent option of a successful run: the jar, the port and
    either the configuration file of the image or the mounted default
    configuration. *)
Definition agentOption (env : Env) (client : nat → Client) (app : Application)
    (prometheus : PrometheusSpec) (text : string) : Prop :=
  let port := default (DefaultPrometheusJavaAgentPort env) (Port prometheus) in
  (HasPrometheusConfigFile env app = true ∧
   ∃ configFile, ConfigFile prometheus = Some configFile ∧
     text = "-javaagent:" +:+ JmxExporterJar prometheus +:+ "=" +:+ pretty port
            +:+ ":" +:+ configFile)
  ∨ (HasPrometheusConfigFile env app = false ∧
     text = "-javaagent:" +:+ JmxExporterJar prometheus +:+ "=" +:+ pretty port
            +:+ ":" +:+ PrometheusConfigMapMountPath env +:+ "/" +:+ prometheusConfigKey).

(** The [*string] fields of the two roles point into the store. *)
Definition valid_pointers (app : Application) (store : list string) : Prop :=
  (∀ p, JavaOptions (Driver app) = Some p → is_Some (store !! p)) ∧
  (∀ p, JavaOptions (Executor app) = Some p → is_Some (store !! p)).

End Monitoring.

(** ** Sample objects

    A small cluster state used to run the definitions: the application
    spark-pi in namespace default, on its second submission, and pods that
    refer to it. *)

Module Samples.

Definition byte_x : Byte.byte := Byte.x7b.

Definition spark_pi_status : SparkApplicationStatus :=
  {| SubmissionID := "run-2";
     LastSubmissionAttemptTime := 1000000;
     TerminationTime := 4500000;
     AppState := SucceedingState;
     ExecutorStates := <["spark-pi-exec-2" := ExecutorCompletedState]>
                         {["spark-pi-exec-1" := ExecutorRunningState]} |}.

Definition spark_pi : SparkApplication :=
  {| AppName := "spark-pi"; AppNamespace := "default"; AppLabels := ∅;
     Status := spark_pi_status |}.

(** The same application one reconciliation earlier: still running, with
    the second executor not yet completed. *)
Definition spark_pi_before : SparkApplication :=
  {| AppName := "spark-pi"; AppNamespace := "default"; AppLabels := ∅;
     Status :=
       {| SubmissionID := "run-2";
          LastSubmissionAttemptTime := 1000000;
          TerminationTime := 0;
          AppState := RunningState;
          ExecutorStates := <["spark-pi-exec-2" := ExecutorRunningState]>
                              {["spark-pi-exec-1" := ExecutorRunningState]} |} |}.

(** The cached index: it knows spark-pi in default and nothing else. *)
Definition index (namespace name : string) : result SparkApplication :=
  if String.eqb namespace "default" && String.eqb name "spark-pi"
  then Ok spark_pi
  else Err "sparkapplication not found".

Definition labels (appName submissionID : string) : gmap string string :=
  <["submission-id" := submissionID]> {["app-name" := appName]}.

(** An executor pod left over from the first submission. *)
Definition stale_pod : Pod :=
  {| PodName := "spark-pi-exec-9"; PodNamespace := "default";
     ResourceVersion := "41"; Labels := labels "spark-pi" "run-1" |}.

(** A pod whose application is no longer in the index. *)
Definition orphan_pod : Pod :=
  {| PodName := "gone-driver"; PodNamespace := "default";
     ResourceVersion := "7"; Labels := labels "gone" "run-1" |}.

(** A pod that carries none of the operator's labels. *)
Definition plain_pod : Pod :=
  {| PodName := "nginx"; PodNamespace := "default";
     ResourceVersion := "3"; Labels := ∅ |}.

Definition handler : PodEventHandler.sparkPodEventHandler :=
  {| PodEventHandler.config :=
       {| PodEventHandler.SparkAppNameLabel := "app-name";
          PodEventHandler.SubmissionIDLabel := "submission-id" |};
     PodEventHandler.applicationLister := index |}.

(** A webhook whose decoder accepts the one-byte body [byte_x] as a review
    of a pod creation and whose pod unmarshaler yields [plain_pod]; every
    other body fails to decode. *)
Definition pod_request : Webhook.AdmissionRequest :=
  {| Webhook.RequestUID := "uid-1";
     Webhook.RequestResource := Webhook.podResource;
     Webhook.RequestNamespace := "default";
     Webhook.ObjectRaw := [byte_x] |}.

Definition webhook : Webhook.WebHook :=
  {| Webhook.lister := index;
     Webhook.sparkJobNamespace := "";
     Webhook.SparkAppNameLabel := "app-name";
     Webhook.Decode body :=
       if match body with [b] => Byte.eqb b byte_x | _ => false end
       then ({| Webhook.Request := Some pod_request; Webhook.Response := None |}, None)
       else ({| Webhook.Request := None; Webhook.Response := None |},
             Some "couldn't get version/kind; json parse error");
     Webhook.jsonUnmarshalPod raw := Ok plain_pod;
     Webhook.jsonMarshalPatch ops := Ok [byte_x];
     Webhook.jsonMarshalReview review := Ok [byte_x];
     Webhook.Write resp := None;
     Webhook.IsLaunchedBySparkOperator pod :=
       bool_decide (Labels pod !! "launched-by-spark-operator" = Some "true");
     Webhook.IsDriverPod pod := bool_decide (Labels pod !! "spark-role" = Some "driver");
     Webhook.IsExecutorPod pod := bool_decide (Labels pod !! "spark-role" = Some "executor");
     Webhook.patchSparkPod pod app := [] |}.

Definition json_request (body : list Byte.byte) : Webhook.HttpRequest :=
  {| Webhook.Body := Some (Ok body); Webhook.ContentType := "application/json" |}.

End Samples.

(** More sample objects: pods of the current submission of spark-pi. *)

Module RouterSamples.

(** An executor pod of the second, current submission. *)
Definition current_pod : Pod :=
  {| PodName := "spark-pi-exec-1"; PodNamespace := "default";
     ResourceVersion := "52"; Labels := Samples.labels "spark-pi" "run-2" |}.

(** The same pod as the informer saw it one version earlier. *)
Definition current_pod_before : Pod :=
  {| PodName := "spark-pi-exec-1"; PodNamespace := "default";
     ResourceVersion := "51"; Labels := Samples.labels "spark-pi" "run-2" |}.

(** A pod that names its application but no submission. *)
Definition unversioned_pod : Pod :=
  {| PodName := "adhoc-driver"; PodNamespace := "default";
     ResourceVersion := "9"; Labels := {["app-name" := "adhoc"]} |}.

(** A handler with the same label keys over an empty index. *)
Definition empty_index_handler : PodEventHandler.sparkPodEventHandler :=
  {| PodEventHandler.config := PodEventHandler.config Samples.handler;
     PodEventHandler.applicationLister := λ _ _, Err "sparkapplication not found" |}.

End RouterSamples.

(** More sample objects: a driver pod of spark-pi and a webhook that
    patches it. *)

Module WebhookSamples.

Definition driver_pod : Pod :=
  {| PodName := "spark-pi-driver"; PodNamespace := "default"; ResourceVersion := "1";
     Labels := <["launched-by-spark-operator" := "true"]>
                 (<["spark-role" := "driver"]> {["app-name" := "spark-pi"]}) |}.

Definition add_volume : Webhook.patchOperation :=
  {| Webhook.Op := "add"; Webhook.Path := "/spec/volumes/-"; Webhook.Value := "config" |}.

(** Like [Samples.webhook], but every pod decodes to [driver_pod], one patch
    operation is computed for it, and the writer fails. *)
Definition patching_webhook : Webhook.WebHook :=
  {| Webhook.lister := Samples.index;
     Webhook.sparkJobNamespace := "default";
     Webhook.SparkAppNameLabel := "app-name";
     Webhook.Decode := Webhook.Decode Samples.webhook;
     Webhook.jsonUnmarshalPod raw := Ok driver_pod;
     Webhook.jsonMarshalPatch ops := Ok [Byte.x5b; Byte.x5d];
     Webhook.jsonMarshalReview review := Ok [Samples.byte_x];
     Webhook.Write resp := Some "broken pipe";
     Webhook.IsLaunchedBySparkOperator := Webhook.IsLaunchedBySparkOperator Samples.webhook;
     Webhook.IsDriverPod := Webhook.IsDriverPod Samples.webhook;
     Webhook.IsExecutorPod := Webhook.IsExecutorPod Samples.webhook;
     Webhook.patchSparkPod pod app := [add_volume] |}.


End WebhookSamples.

(** Sample objects for the monitoring configuration. *)

Module MonitoringSamples.
Import Registration Monitoring.

Definition env : Env :=
  {| DefaultPrometheusJavaAgentPort := 8090;
     PrometheusConfigMapMountPath := "/etc/metrics/conf";
     DefaultMetricsProperties := "*.sink.jmx.class=org.apache.spark.metrics.sink.JmxSink";
     DefaultPrometheusConfiguration := "lowercaseOutputName: true";
     GetPrometheusConfigMapName app := AppName_ app +:+ "-prom-conf";
     HasPrometheusConfigFile app :=
       match Monitoring_ app with
       | Some {| Prometheus := Some {| ConfigFile := Some file |} |} =>
           negb (String.eqb file "")
       | _ => false
       end;
     getOwnerReference app := AppName_ app;
     RetryOnConflict fn := fn 0%nat |}.

(** A cluster in which the ConfigMap does not exist yet. *)
Definition empty_cluster : Client :=
  {| GetCM namespace name := inr {| IsNotFound := true; ErrorText := "not found" |};
     CreateCM configMap := None;
     UpdateCM configMap := None |}.

(** A cluster that answers every call with a conflict. *)
Definition busy_cluster : Client :=
  {| GetCM namespace name :=
       inl {| CMName := name; CMNamespace := namespace; OwnerReferences := [];
              CMMeta := [("resourceVersion", "7")]; Data := ∅ |};
     CreateCM configMap := Some {| IsNotFound := false; ErrorText := "conflict" |};
     UpdateCM configMap := Some {| IsNotFound := false; ErrorText := "conflict" |} |}.

Definition monitoring : MonitoringSpec :=
  {| ExposeDriverMetrics := true;
     ExposeExecutorMetrics := true;
     MetricsProperties := None;
     Prometheus := Some {| JmxExporterJar := "/prometheus/agent.jar"; Port := None;
                           ConfigFile := None; Configuration := None |} |}.

(** spark-pi with driver java options in cell 0 of the store and no
    executor java options. *)
Definition app : Application :=
  {| Namespace := "default";
     AppName_ := "spark-pi";
     SparkConf := None;
     Driver := {| Annotations := Some {["team" := "data"]}; JavaOptions := Some 0%nat |};
     Executor := {| Annotations := None; JavaOptions := None |};
     Monitoring_ := Some monitoring |}.

(** The same application with one string shared by both roles. *)
Definition aliased_app : Application :=
  {| Namespace := "default";
     AppName_ := "spark-pi";
     SparkConf := None;
     Driver := {| Annotations := None; JavaOptions := Some 0%nat |};
     Executor := {| Annotations := None; JavaOptions := Some 0%nat |};
     Monitoring_ := Some monitoring |}.

Definition store : list string := ["-Dlog4j.debug"].

Definition agent : string :=
  "-javaagent:/prometheus/agent.jar=8090:/etc/metrics/conf/prometheus.yaml".

End MonitoringSamples.

(** * Properties *)

(** ** The pod event router *)

Module PodEventHandlerFacts.
Import PodEventHandler.

(** Every notification about a pod ends in [enqueueSparkAppForUpdate] on that
    pod, or is dropped by the resource-version test of [onPodUpdated]. *)
Lemma handle_carried s ev pod queue :
  carries ev pod →
  handle s ev queue = Returned queue ∨
  handle s ev queue = Returned (enqueueSparkAppForUpdate s pod queue).
Proof.
  destruct 1 as [pod|oldPod pod|pod|key pod]; simpl; auto.
  unfold onPodUpdated; simpl.
  destruct (String.eqb _ _); auto.
Qed.

(** The guard of [enqueueSparkAppForUpdate]: with a submission-ID label on
    the pod, a lookup that does not return an application with that very
    submission ID leaves the queue as it was. *)
Lemma enqueue_guard s pod queue appName submissionID :
  Labels pod !! SparkAppNameLabel (config s) = Some appName →
  Labels pod !! SubmissionIDLabel (config s) = Some submissionID →
  (∀ app, applicationLister s (PodNamespace pod) appName = Ok app →
          SubmissionID (Status app) ≠ submissionID) →
  enqueueSparkAppForUpdate s pod queue = queue.
Proof.
  intros Hname Hsid Hstale.
  unfold enqueueSparkAppForUpdate, getAppName. rewrite Hname, Hsid. simpl.
  destruct (applicationLister s (PodNamespace pod) appName) as [app|e] eqn:Hget; [|done].
  destruct (String.eqb_spec (SubmissionID (Status app)) submissionID) as [Heq|Hne]; [|done].
  by destruct (Hstale app).
Qed.

(** C2. For a pod event (add, update or delete, the latter in the live and
    in the tombstone shape) whose pod carries a submission-ID label that
    differs from the status submission ID of the owning application found
    in the cached index, the router enqueues nothing: the handler returns
    with the queue unchanged. *)
Theorem stale_submission_not_enqueued s ev pod queue appName submissionID app :
  carries ev pod →
  Labels pod !! SparkAppNameLabel (config s) = Some appName →
  Labels pod !! SubmissionIDLabel (config s) = Some submissionID →
  applicationLister s (PodNamespace pod) appName = Ok app →
  SubmissionID (Status app) ≠ submissionID →
  handle s ev queue = Returned queue.
Proof.
  intros Hev Hname Hsid Hget Hne.
  destruct (handle_carried s ev pod queue Hev) as [->| ->]; [done|].
  f_equal. eapply enqueue_guard; eauto.
  intros app' Hget'. congruence.
Qed.

(** C10. For a pod event whose pod carries an application-name label and a
    submission-ID label, a failed lookup of the owning application in the
    cached index drops the event: the handler returns with the queue
    unchanged, exactly as for a submission-ID mismatch. *)
Theorem lookup_error_not_enqueued s ev pod queue appName submissionID err :
  carries ev pod →
  Labels pod !! SparkAppNameLabel (config s) = Some appName →
  Labels pod !! SubmissionIDLabel (config s) = Some submissionID →
  applicationLister s (PodNamespace pod) appName = Err err →
  handle s ev queue = Returned queue.
Proof.
  intros Hev Hname Hsid Hget.
  destruct (handle_carried s ev pod queue Hev) as [->| ->]; [done|].
  f_equal. eapply enqueue_guard; eauto.
  intros app' Hget'. congruence.
Qed.

(** The stale executor pod of the first submission, delivered as a
    tombstone, leaves the queue alone. *)
Lemma stale_submission_not_enqueued_witness :
  SubmissionID (Status Samples.spark_pi) ≠ "run-1" ∧
  handle Samples.handler
    (Deleted (DeletedFinalStateUnknown "default/spark-pi-exec-9"
                (PodObject (Some Samples.stale_pod))))
    ["default/other"]
  = Returned ["default/other"].
Proof.
  split; [discriminate|].
  apply (stale_submission_not_enqueued Samples.handler _ Samples.stale_pod _
           "spark-pi" "run-1" Samples.spark_pi);
    [constructor | reflexivity | reflexivity | reflexivity | discriminate].
Defined.

(** A pod whose application has left the index is dropped on arrival. *)
Lemma lookup_error_not_enqueued_witness :
  Samples.index "default" "gone" = Err "sparkapplication not found" ∧
  handle Samples.handler (Added (PodObject (Some Samples.orphan_pod))) [] = Returned [].
Proof.
  split; [reflexivity|].
  apply (lookup_error_not_enqueued Samples.handler _ Samples.orphan_pod _
           "gone" "run-1" "sparkapplication not found");
    [constructor | reflexivity | reflexivity | reflexivity].
Defined.

(** The deletion handler on the shapes it does handle: a pod pointer, bare
    or wrapped in a tombstone, never makes it panic, and a nil pointer is
    dropped. *)
Lemma onPodDeleted_pod_shapes s p queue key :
  onPodDeleted s (PodObject p) queue
  = Returned (from_option (λ pod, enqueueSparkAppForUpdate s pod queue) queue p) ∧
  onPodDeleted s (DeletedFinalStateUnknown key (PodObject p)) queue
  = Returned (from_option (λ pod, enqueueSparkAppForUpdate s pod queue) queue p).
Proof. by destruct p. Qed.

(** C8. The deletion handler is not total over the tombstone contents: a
    tombstone whose [Obj] is not a pod pointer (the nil interface, as the
    informer's queue places it when the last state is unknown, or any other
    type) makes the unchecked assertion panic before the nil test is
    reached, instead of dropping the event. *)
Theorem tombstone_without_pod_panics s key queue dynamicType :
  onPodDeleted s (DeletedFinalStateUnknown key NilObject) queue = Panicked ∧
  onPodDeleted s (DeletedFinalStateUnknown key (OtherObject dynamicType)) queue = Panicked ∧
  onPodDeleted s (DeletedFinalStateUnknown key (DeletedFinalStateUnknown key NilObject)) queue
  = Panicked.
Proof. done. Qed.

End PodEventHandlerFacts.

(** ** The admission webhook *)

Module WebhookFacts.
Import Webhook.

Lemma toAdmissionResponse_explains err : explains err (toAdmissionResponse err).
Proof. by split. Qed.

Lemma setUID_explains err uid resp : explains err resp → explains err (setUID uid resp).
Proof. by intros [? ?]. Qed.

Lemma mutatePods_allowed wh review resp :
  mutatePods wh review = Returned (Some resp) → Allowed resp = true.
Proof.
  unfold mutatePods. intros H.
  repeat match type of H with
         | context [match ?x with _ => _ end] => destruct x eqn:?
         end;
    simplify_eq; done.
Qed.

Lemma serveReview_allowed wh r response resp :
  serveReview wh r = Returned (inr response) →
  Response response = Some resp → Allowed resp = true.
Proof.
  unfold serveReview. intros H Hresp.
  destruct (match Body r with None => Ok [] | Some read => read end) as [body|e]; [|done].
  destruct (Z.of_nat (length body) =? 0); [done|].
  destruct (negb (String.eqb (ContentType r) "application/json")); [done|].
  destruct (Decode wh body) as [review [err|]].
  - simplify_eq. simpl in Hresp. simplify_eq. by destruct (Request review).
  - destruct (mutatePods wh review) as [[resp'|]|] eqn:Hm; [| |done].
    + apply mutatePods_allowed in Hm.
      simplify_eq. simpl in Hresp. simplify_eq. by destruct (Request review).
    + by simplify_eq.
Qed.

(** C1. The webhook fails open.  An error while decoding the request body
    into an admission review, while unmarshaling the embedded pod, while
    looking the owning application up, or while marshaling the computed
    patch operations, each produces an admission response with
    [Allowed = true] and the error text as its message; and no response the
    webhook produces has [Allowed = false]. *)
Theorem fail_open wh :
  (∀ r body review err,
     Body r = Some (Ok body) → body ≠ [] →
     ContentType r = "application/json" →
     Decode wh body = (review, Some err) →
     ∃ resp, serveReview wh r
             = Returned (inr {| Request := None; Response := Some resp |})
             ∧ explains err resp) ∧
  (∀ review request err,
     Request review = Some request →
     RequestResource request = podResource →
     jsonUnmarshalPod wh (ObjectRaw request) = Err err →
     ∃ resp, mutatePods wh review = Returned (Some resp) ∧ explains err resp) ∧
  (∀ review request pod appName err,
     Request review = Some request →
     RequestResource request = podResource →
     jsonUnmarshalPod wh (ObjectRaw request) = Ok pod →
     isSparkPod wh pod = true →
     inSparkJobNamespace (RequestNamespace request) (sparkJobNamespace wh) = true →
     Labels pod !! SparkAppNameLabel wh = Some appName → appName ≠ "" →
     lister wh (RequestNamespace request) appName = Err err →
     ∃ resp, mutatePods wh review = Returned (Some resp) ∧ explains err resp) ∧
  (∀ review request pod appName app err,
     Request review = Some request →
     RequestResource request = podResource →
     jsonUnmarshalPod wh (ObjectRaw request) = Ok pod →
     isSparkPod wh pod = true →
     inSparkJobNamespace (RequestNamespace request) (sparkJobNamespace wh) = true →
     Labels pod !! SparkAppNameLabel wh = Some appName → appName ≠ "" →
     lister wh (RequestNamespace request) appName = Ok app →
     patchSparkPod wh pod app ≠ [] →
     jsonMarshalPatch wh (patchSparkPod wh pod app) = Err err →
     ∃ resp, mutatePods wh review = Returned (Some resp) ∧ explains err resp) ∧
  (∀ review resp, mutatePods wh review = Returned (Some resp) → Allowed resp = true) ∧
  (∀ r response resp,
     serveReview wh r = Returned (inr response) →
     Response response = Some resp → Allowed resp = true).
Proof.
  split_and!.
  - intros r body review err Hbody Hne Hct Hdec.
    unfold serveReview. rewrite Hbody, Hct, Hdec.
    destruct body as [|b body]; [done|]. simpl.
    eexists. split; [reflexivity|].
    destruct (Request review); auto using setUID_explains, toAdmissionResponse_explains.
  - intros review request err Hreq Hres Hun.
    unfold mutatePods. rewrite Hreq, Hres, Hun.
    rewrite bool_decide_eq_true_2 by done. simpl.
    eauto using toAdmissionResponse_explains.
  - intros review request pod appName err Hreq Hres Hun Hspark Hns Hlabel Hname Hget.
    unfold mutatePods, map_index. rewrite Hreq, Hres, Hun, Hspark, Hns, Hlabel.
    rewrite bool_decide_eq_true_2 by done. simpl.
    destruct (String.eqb_spec appName "") as [?|_]; [done|].
    rewrite Hget. eauto using toAdmissionResponse_explains.
  - intros review request pod appName app err Hreq Hres Hun Hspark Hns Hlabel Hname
      Hget Hops Hmarshal.
    unfold mutatePods, map_index. rewrite Hreq, Hres, Hun, Hspark, Hns, Hlabel.
    rewrite bool_decide_eq_true_2 by done. simpl.
    destruct (String.eqb_spec appName "") as [?|_]; [done|].
    rewrite Hget, Hmarshal.
    destruct (patchSparkPod wh pod app) as [|op ops]; [done|]. simpl.
    eauto using toAdmissionResponse_explains.
  - apply mutatePods_allowed.
  - apply serveReview_allowed.
Qed.

(** A body the decoder rejects is answered with an allowing response that
    carries the decoder's message. *)
Lemma fail_open_witness :
  ∃ resp,
    serveReview Samples.webhook (Samples.json_request [Byte.x00])
    = Returned (inr {| Request := None; Response := Some resp |})
    ∧ explains "couldn't get version/kind; json parse error" resp.
Proof.
  apply (proj1 (fail_open Samples.webhook)
           (Samples.json_request [Byte.x00]) [Byte.x00]
           {| Request := None; Response := None |}
           "couldn't get version/kind; json parse error");
    [reflexivity | discriminate | reflexivity | reflexivity].
Defined.



End WebhookFacts.

(** ** The metrics exporter *)

Module MetricsFacts.
Import Metrics.

Lemma observations_app calls1 calls2 :
  observations (calls1 ++ calls2) = observations calls1 ++ observations calls2.
Proof. unfold observations. apply bind_app. Qed.

Lemma exportExecutorMetrics_observations oldStates entry :
  observations (exportExecutorMetrics oldStates entry) = [].
Proof.
  destruct entry as [executor []]; simpl; try done;
    by destruct (negb (bool_decide _)).
Qed.

Lemma exportExecutorStateMetrics_observations oldStatus newStatus :
  observations (exportExecutorStateMetrics oldStatus newStatus) = [].
Proof.
  unfold exportExecutorStateMetrics.
  induction (map_to_list (ExecutorStates newStatus)) as [|entry entries IH]; [done|].
  rewrite bind_cons, observations_app, IH, exportExecutorMetrics_observations. done.
Qed.

Lemma observeExecutionTime_observations s newStatus :
  observations (observeExecutionTime s newStatus)
  = if decide (LastSubmissionAttemptTime newStatus ≠ 0 ∧ TerminationTime newStatus ≠ 0)
    then [(s, Z.quot (Sub (TerminationTime newStatus) (LastSubmissionAttemptTime newStatus))
                Microsecond)]
    else [].
Proof.
  unfold observeExecutionTime, IsZero.
  destruct (Z.eqb_spec (LastSubmissionAttemptTime newStatus) 0),
           (Z.eqb_spec (TerminationTime newStatus) 0);
    simpl; case_decide; try done; tauto.
Qed.

(** C9. On a transition into [SucceedingState] or [FailingState], the
    exporter emits an execution-duration observation if and only if both
    [LastSubmissionAttemptTime] and [TerminationTime] are non-zero; when it
    does, it is the single observation of the termination time minus the
    last submission attempt time, in whole microseconds, on the summary of
    the new state. *)
Theorem execution_time_observed_iff oldApp newApp :
  AppState (Status newApp) ≠ AppState (Status oldApp) →
  AppState (Status newApp) = SucceedingState ∨ AppState (Status newApp) = FailingState →
  let newStatus := Status newApp in
  let summary :=
    if decide (AppState newStatus = SucceedingState)
    then sparkAppSuccessExecutionTime else sparkAppFailureExecutionTime in
  let d := Sub (TerminationTime newStatus) (LastSubmissionAttemptTime newStatus) in
  (observations (exportMetrics oldApp newApp) ≠ []
   ↔ LastSubmissionAttemptTime newStatus ≠ 0 ∧ TerminationTime newStatus ≠ 0) ∧
  (LastSubmissionAttemptTime newStatus ≠ 0 ∧ TerminationTime newStatus ≠ 0 →
   observations (exportMetrics oldApp newApp) = [(summary, Z.quot d Microsecond)]).
Proof.
  intros Hchange Hnew newStatus summary d.
  assert (Hobs : observations (exportMetrics oldApp newApp)
                 = observations (observeExecutionTime summary newStatus)).
  { unfold exportMetrics. rewrite observations_app, exportExecutorStateMetrics_observations.
    rewrite app_nil_r. unfold exportAppStateMetrics.
    rewrite bool_decide_eq_false_2 by done. simpl.
    subst summary newStatus.
    destruct Hnew as [-> | ->]; simpl; rewrite observations_app; simpl; by rewrite app_nil_r. }
  rewrite Hobs, observeExecutionTime_observations.
  case_decide; split; try done; tauto.
Qed.

(** spark-pi, submitted at 1 ms and terminated at 4.5 ms past the zero
    instant, is observed with 3500 microseconds when it turns succeeding. *)
Lemma execution_time_observed_iff_witness :
  AppState (Status Samples.spark_pi) ≠ AppState (Status Samples.spark_pi_before) ∧
  observations (exportMetrics Samples.spark_pi_before Samples.spark_pi)
  = [(sparkAppSuccessExecutionTime, 3500)].
Proof.
  split; [discriminate|].
  apply (proj2 (execution_time_observed_iff Samples.spark_pi_before Samples.spark_pi
                  ltac:(discriminate) (or_introl eq_refl)));
    split; discriminate.
Defined.

Lemma count_call_app c calls1 calls2 :
  count_call c (calls1 ++ calls2) = (count_call c calls1 + count_call c calls2)%nat.
Proof. unfold count_call. by rewrite filter_app, length_app. Qed.

(** A call occurs in the trace of the executor loop as often as there are
    map entries whose loop body makes it, provided no body makes it twice. *)
Lemma count_call_loop c oldStates (P : string * ExecutorState → Prop)
    `{∀ entry, Decision (P entry)} entries :
  (∀ entry, count_call c (exportExecutorMetrics oldStates entry)
            = if decide (P entry) then 1%nat else 0%nat) →
  count_call c (entries ≫= exportExecutorMetrics oldStates) = length (filter P entries).
Proof.
  intros Hbody. induction entries as [|entry entries IH]; [done|].
  rewrite bind_cons, count_call_app, IH, Hbody, filter_cons.
  by case_decide.
Qed.

Lemma count_call_transitions c s oldStatus newStatus :
  (∀ entry, count_call c (exportExecutorMetrics (ExecutorStates oldStatus) entry)
            = if decide (entry.2 = s ∧ ExecutorStates oldStatus !! entry.1 ≠ Some s)
              then 1%nat else 0%nat) →
  count_call c (exportExecutorStateMetrics oldStatus newStatus)
  = transitions_to s (ExecutorStates oldStatus) (ExecutorStates newStatus).
Proof. intros Hbody. by apply count_call_loop. Qed.

Lemma exportExecutorMetrics_unchanged oldStates executor state :
  oldStates !! executor = Some state →
  exportExecutorMetrics oldStates (executor, state) = [].
Proof.
  intros Hold. unfold exportExecutorMetrics.
  rewrite bool_decide_eq_true_2 by done. by destruct state.
Qed.

(** What the loop body does for one entry, counted: the running gauge is
    decremented once for an entry that newly completed or newly failed, and
    the body makes one call for an entry that newly runs, two for one that
    newly completed or failed, and none otherwise. *)
Lemma exportExecutorMetrics_entry oldStates (entry : string * ExecutorState) :
  let newly s := bool_decide (entry.2 = s ∧ oldStates !! entry.1 ≠ Some s) in
  let one (b : bool) := if b then 1%nat else 0%nat in
  count_call (GaugeDec sparkAppExecutorRunningCount) (exportExecutorMetrics oldStates entry)
  = (one (newly ExecutorCompletedState) + one (newly ExecutorFailedState))%nat ∧
  length (exportExecutorMetrics oldStates entry)
  = (one (newly ExecutorRunningState)
     + 2 * (one (newly ExecutorCompletedState) + one (newly ExecutorFailedState)))%nat.
Proof.
  destruct entry as [executor state]. simpl.
  destruct state; simpl;
    repeat (case_bool_decide; simpl);
    try done; try tauto; exfalso; intuition congruence.
Qed.

Lemma length_filter_cons_decide {A} (P : A → Prop) `{∀ x, Decision (P x)} x (l : list A) :
  length (filter P (x :: l))
  = ((if bool_decide (P x) then 1 else 0) + length (filter P l))%nat.
Proof. rewrite filter_cons. by case_decide; case_bool_decide. Qed.

(** The same, summed over the loop. *)
Lemma exportExecutorStateMetrics_totals oldStatus newStatus :
  let oldStates := ExecutorStates oldStatus in
  let newStates := ExecutorStates newStatus in
  let loop := exportExecutorStateMetrics oldStatus newStatus in
  count_call (GaugeDec sparkAppExecutorRunningCount) loop
  = (transitions_to ExecutorCompletedState oldStates newStates
     + transitions_to ExecutorFailedState oldStates newStates)%nat ∧
  length loop
  = (transitions_to ExecutorRunningState oldStates newStates
     + 2 * (transitions_to ExecutorCompletedState oldStates newStates
            + transitions_to ExecutorFailedState oldStates newStates))%nat.
Proof.
  intros oldStates newStates loop. subst loop.
  unfold exportExecutorStateMetrics, transitions_to. fold oldStates newStates.
  induction (map_to_list newStates) as [|entry entries [IHdec IHlen]]; [done|].
  destruct (exportExecutorMetrics_entry oldStates entry) as [Hdec Hlen].
  rewrite bind_cons, count_call_app, length_app, !length_filter_cons_decide.
  rewrite IHdec, IHlen, Hdec, Hlen. simpl. split; lia.
Qed.

(** The application state switch makes none of the executor calls. *)
Lemma exportAppStateMetrics_no_executor_call oldStatus newStatus :
  Forall (λ call, count_call call (exportAppStateMetrics oldStatus newStatus) = 0%nat)
    [ GaugeInc sparkAppExecutorRunningCount;
      GaugeDec sparkAppExecutorRunningCount;
      CounterInc sparkAppExecutorSuccessCount;
      CounterInc sparkAppExecutorFailureCount ].
Proof.
  unfold exportAppStateMetrics, observeExecutionTime.
  destruct (negb (bool_decide _)); [|by repeat constructor].
  destruct (AppState newStatus); try (by repeat constructor);
    destruct (negb _ && negb _); by repeat constructor.
Qed.

(** C5. Executor-state metric effects fire once per observed transition.
    An executor for which the old map already records the new state gets
    no call; every call of the loop stems from an executor whose state
    differs from the recorded one; the running gauge is incremented once
    per executor that newly runs and decremented once per executor that
    newly completed or failed, and the success and failure counters are
    incremented once per executor that newly completed or failed; the loop
    makes no call besides these; the same counts hold for the whole of
    [exportMetrics]; re-delivery of the same snapshot makes no call at
    all. *)
Theorem executor_metrics_once_per_transition oldApp newApp :
  let oldStates := ExecutorStates (Status oldApp) in
  let newStates := ExecutorStates (Status newApp) in
  let loop := exportExecutorStateMetrics (Status oldApp) (Status newApp) in
  (∀ executor state,
     newStates !! executor = Some state → oldStates !! executor = Some state →
     exportExecutorMetrics oldStates (executor, state) = []) ∧
  (∀ call, call ∈ loop →
     ∃ executor state,
       newStates !! executor = Some state ∧ oldStates !! executor ≠ Some state ∧
       call ∈ exportExecutorMetrics oldStates (executor, state)) ∧
  count_call (GaugeInc sparkAppExecutorRunningCount) loop
  = transitions_to ExecutorRunningState oldStates newStates ∧
  count_call (CounterInc sparkAppExecutorSuccessCount) loop
  = transitions_to ExecutorCompletedState oldStates newStates ∧
  count_call (CounterInc sparkAppExecutorFailureCount) loop
  = transitions_to ExecutorFailedState oldStates newStates ∧
  (oldStates = newStates → loop = []) ∧
  exportMetrics newApp newApp = [] ∧
  count_call (GaugeDec sparkAppExecutorRunningCount) loop
  = (transitions_to ExecutorCompletedState oldStates newStates
     + transitions_to ExecutorFailedState oldStates newStates)%nat ∧
  length loop
  = (transitions_to ExecutorRunningState oldStates newStates
     + 2 * (transitions_to ExecutorCompletedState oldStates newStates
            + transitions_to ExecutorFailedState oldStates newStates))%nat ∧
  count_call (GaugeInc sparkAppExecutorRunningCount) (exportMetrics oldApp newApp)
  = transitions_to ExecutorRunningState oldStates newStates ∧
  count_call (GaugeDec sparkAppExecutorRunningCount) (exportMetrics oldApp newApp)
  = (transitions_to ExecutorCompletedState oldStates newStates
     + transitions_to ExecutorFailedState oldStates newStates)%nat ∧
  count_call (CounterInc sparkAppExecutorSuccessCount) (exportMetrics oldApp newApp)
  = transitions_to ExecutorCompletedState oldStates newStates ∧
  count_call (CounterInc sparkAppExecutorFailureCount) (exportMetrics oldApp newApp)
  = transitions_to ExecutorFailedState oldStates newStates.
Proof.
  intros oldStates newStates loop.
  assert (Hsame : ∀ old new,
            ExecutorStates old = ExecutorStates new →
            exportExecutorStateMetrics old new = []).
  { intros old new Heq. unfold exportExecutorStateMetrics. rewrite Heq.
    assert (Hall : ∀ entry, entry ∈ map_to_list (ExecutorStates new) →
                     exportExecutorMetrics (ExecutorStates new) entry = []).
    { intros [executor state] Hin%elem_of_map_to_list.
      by apply exportExecutorMetrics_unchanged. }
    induction (map_to_list (ExecutorStates new)) as [|entry entries IH]; [done|].
    rewrite bind_cons, Hall by left. simpl. apply IH.
    intros entry' Hin. apply Hall. by right. }
  assert (Hrunning : count_call (GaugeInc sparkAppExecutorRunningCount) loop
                     = transitions_to ExecutorRunningState oldStates newStates).
  { apply count_call_transitions. intros [executor state]. simpl.
    destruct state; simpl; repeat case_decide; try case_bool_decide; simpl;
      try done; try tauto. }
  assert (Hsuccess : count_call (CounterInc sparkAppExecutorSuccessCount) loop
                     = transitions_to ExecutorCompletedState oldStates newStates).
  { apply count_call_transitions. intros [executor state]. simpl.
    destruct state; simpl; repeat case_decide; try case_bool_decide; simpl;
      try done; try tauto. }
  assert (Hfailure : count_call (CounterInc sparkAppExecutorFailureCount) loop
                     = transitions_to ExecutorFailedState oldStates newStates).
  { apply count_call_transitions. intros [executor state]. simpl.
    destruct state; simpl; repeat case_decide; try case_bool_decide; simpl;
      try done; try tauto. }
  destruct (exportExecutorStateMetrics_totals (Status oldApp) (Status newApp))
    as [Hdecrement Hlength].
  pose proof (exportAppStateMetrics_no_executor_call (Status oldApp) (Status newApp))
    as Happ.
  apply Forall_cons in Happ as [Happ1 Happ].
  apply Forall_cons in Happ as [Happ2 Happ].
  apply Forall_cons in Happ as [Happ3 Happ].
  apply Forall_cons in Happ as [Happ4 _].
  split_and!.
  - intros executor state _ Hold. by apply exportExecutorMetrics_unchanged.
  - intros call Hin. subst loop. unfold exportExecutorStateMetrics in Hin.
    apply list_elem_of_bind in Hin as ([executor state] & Hcall & Hentry).
    apply elem_of_map_to_list in Hentry.
    exists executor, state. split_and!; [done| |done].
    intros Hold. rewrite exportExecutorMetrics_unchanged in Hcall by done.
    by apply elem_of_nil in Hcall.
  - exact Hrunning.
  - exact Hsuccess.
  - exact Hfailure.
  - intros Heq. by apply Hsame.
  - unfold exportMetrics, exportAppStateMetrics.
    rewrite bool_decide_eq_true_2 by done. simpl. by apply Hsame.
  - exact Hdecrement.
  - exact Hlength.
  - unfold exportMetrics. rewrite count_call_app, Happ1. exact Hrunning.
  - unfold exportMetrics. rewrite count_call_app, Happ2. exact Hdecrement.
  - unfold exportMetrics. rewrite count_call_app, Happ3. exact Hsuccess.
  - unfold exportMetrics. rewrite count_call_app, Happ4. exact Hfailure.
Qed.

(** The first executor of spark-pi was running before and still is: no
    call is made for it. *)
Lemma executor_metrics_once_per_transition_witness :
  exportExecutorMetrics (ExecutorStates (Status Samples.spark_pi_before))
    ("spark-pi-exec-1", ExecutorRunningState) = [].
Proof.
  apply (proj1 (executor_metrics_once_per_transition Samples.spark_pi_before
                  Samples.spark_pi) "spark-pi-exec-1" ExecutorRunningState);
    reflexivity.
Defined.

End MetricsFacts.

(** ** The scheduling adapter *)

Module YunikornFacts.
Import Yunikorn YunikornTest.

(** Copying a map into another one, entry by entry, is a left-biased union. *)
Lemma copy_is_union (src dst : gmap string string) :
  map_fold (λ k v m, <[k := v]> m) dst src = src ∪ dst.
Proof.
  apply (map_fold_weak_ind (λ r m, r = m ∪ dst)).
  - by rewrite (left_id_L ∅ (∪)).
  - intros k v m r _ ->. by rewrite insert_union_l.
Qed.

Lemma mergeNodeSelector_union appNodeSelector podNodeSelector :
  mergeNodeSelector appNodeSelector podNodeSelector
  = if decide (podNodeSelector ∪ appNodeSelector = ∅) then None
    else Some (podNodeSelector ∪ appNodeSelector).
Proof.
  unfold mergeNodeSelector. rewrite !copy_is_union, (right_id_L ∅ (∪)).
  destruct (Nat.eqb_spec (size (podNodeSelector ∪ appNodeSelector)) 0) as [Hsz|Hsz];
    case_decide as Hempty; try done.
  - by apply map_size_empty_iff in Hsz.
  - by rewrite Hempty, map_size_empty in Hsz.
Qed.

(** C6. The node-selector merge is the union of the application-level and
    the role-level selector in which the role-level value wins on every
    common key, and it is the nil map, never an empty one, exactly when
    the merge has no keys; it gives the expected result on every row of
    [TestMergeNodeSelector]. *)
Theorem mergeNodeSelector_correct (appNodeSelector podNodeSelector : gmap string string) :
  (∀ k, default ∅ (mergeNodeSelector appNodeSelector podNodeSelector) !! k
        = match podNodeSelector !! k with
          | Some v => Some v
          | None => appNodeSelector !! k
          end) ∧
  (mergeNodeSelector appNodeSelector podNodeSelector = None
   ↔ appNodeSelector = ∅ ∧ podNodeSelector = ∅) ∧
  mergeNodeSelector appNodeSelector podNodeSelector ≠ Some ∅ ∧
  Forall (λ row, mergeNodeSelector row.1.1 row.1.2 = row.2) merge_cases.
Proof.
  rewrite mergeNodeSelector_union. split_and!.
  - intros k. case_decide as Hempty; simpl.
    + rewrite lookup_empty.
      apply map_empty with (i := k) in Hempty.
      rewrite lookup_union in Hempty.
      by destruct (podNodeSelector !! k), (appNodeSelector !! k).
    + rewrite lookup_union.
      by destruct (podNodeSelector !! k), (appNodeSelector !! k).
  - case_decide as Hempty.
    + apply map_positive_l in Hempty as Hpod. subst.
      rewrite (left_id_L ∅ (∪)) in Hempty. by subst.
    + split; [done|]. intros [-> ->]. by rewrite (left_id_L ∅ (∪)) in Hempty.
  - case_decide; congruence.
  - repeat constructor.
Qed.

(** Two empty selectors merge into the nil map. *)
Lemma mergeNodeSelector_correct_witness : mergeNodeSelector ∅ ∅ = None.
Proof.
  apply (proj2 (proj1 (proj2 (mergeNodeSelector_correct ∅ ∅)))).
  split; reflexivity.
Defined.

(** C4. The minimum member count of the executor task group is the maximum
    of the static instance count, the dynamic-allocation minimum and the
    dynamic-allocation initial executor counts, each one zero when unset:
    it bounds all three and is one of them; instances 4, initial 8 and
    minimum 2 give 8, and the counts expected by [TestSchedule] are met. *)
Theorem executorMinMember_is_max spec :
  let instances := default 0 (Instances spec) in
  let minExecutors := default 0 (DynamicAllocation_ spec ≫= MinExecutors) in
  let initialExecutors := default 0 (DynamicAllocation_ spec ≫= InitialExecutors) in
  let minMember := executorMinMember spec in
  (instances ≤ minMember ∧ minExecutors ≤ minMember ∧ initialExecutors ≤ minMember) ∧
  (minMember = instances ∨ minMember = minExecutors ∨ minMember = initialExecutors) ∧
  (∀ other, instances ≤ other → minExecutors ≤ other → initialExecutors ≤ other →
            minMember ≤ other) ∧
  executorMinMember dynamic_allocation_app = 8 ∧
  MinMember <$> taskGroups spark_pi_app = MinMember <$> spark_pi_expected ∧
  MinMember <$> taskGroups dynamic_allocation_app = MinMember <$> dynamic_allocation_expected ∧
  MinMember <$> taskGroups node_selectors_app = MinMember <$> node_selectors_expected.
Proof.
  intros instances minExecutors initialExecutors minMember.
  subst minMember. unfold executorMinMember.
  fold instances minExecutors initialExecutors.
  split_and!; try reflexivity; lia.
Qed.

(** Eight executors bound all three settings of the dynamic-allocation
    case, so the minimum member count is at most eight. *)
Lemma executorMinMember_is_max_witness :
  executorMinMember dynamic_allocation_app ≤ 8.
Proof.
  apply (proj1 (proj2 (proj2 (executorMinMember_is_max dynamic_allocation_app))) 8);
    vm_compute; discriminate.
Defined.

(** The number of whole MiB below a byte count. *)
Lemma Qfloor_MiB (total : Q) :
  let n := Qfloor (total / inject_Z MiB) in
  (inject_Z (n * MiB) <= total)%Q ∧ (total < inject_Z ((n + 1) * MiB))%Q.
Proof.
  intros n.
  assert (Hpos : (0 < inject_Z MiB)%Q) by done.
  assert (Hne : ¬ (inject_Z MiB == 0)%Q) by done.
  assert (Hmul : (total / inject_Z MiB * inject_Z MiB == total)%Q).
  { rewrite Qmult_comm. by apply Qmult_div_r. }
  rewrite !inject_Z_mult. split.
  - apply Qle_trans with (total / inject_Z MiB * inject_Z MiB)%Q.
    + apply Qmult_le_compat_r; [apply Qfloor_le | by apply Qlt_le_weak].
    + rewrite Hmul. apply Qle_refl.
  - apply Qle_lt_trans with (total / inject_Z MiB * inject_Z MiB)%Q.
    + rewrite Hmul. apply Qle_refl.
    + apply Qmult_lt_compat_r; [done | apply Qlt_floor].
Qed.

Lemma Qmax_spec (a b : Q) :
  (a <= Qmax a b)%Q ∧ (b <= Qmax a b)%Q ∧ (Qmax a b = a ∨ Qmax a b = b).
Proof.
  unfold Qmax. destruct (Qle_bool a b) eqn:Hle.
  - apply Qle_bool_iff in Hle. split_and!; [done | apply Qle_refl | by right].
  - split_and!; [apply Qle_refl | | by left].
    apply Qlt_le_weak, Qnot_le_lt. intros Hle'%Qle_bool_iff. congruence.
Qed.

(** C3, as stated, fails on the adapter's own test: with the memory rounded
    up to whole MiB, the driver of the "Dynamic allocation and memory
    overhead" case (8 GiB, factor 0.3, core request 2000m over 4 cores)
    gets 10650Mi, not the 10649Mi that [TestSchedule] and the claim's own
    example expect. *)
Lemma rounding_up_misses_TestSchedule :
  minResource_spec (Driver dynamic_allocation_app)
    (memoryOverheadFactor dynamic_allocation_app) !! "memory" = Some "10650Mi" ∧
  minResource_spec (Driver dynamic_allocation_app)
    (memoryOverheadFactor dynamic_allocation_app) ≠ resources "2000m" "10649Mi" ∧
  MinResource <$> taskGroups_spec dynamic_allocation_app
  ≠ MinResource <$> dynamic_allocation_expected.
Proof.
  split_and!.
  - reflexivity.
  - intros Heq. apply (f_equal (.!! "memory")) in Heq. vm_compute in Heq. congruence.
  - intros Heq. apply (f_equal (λ l, l !! 0%nat ≫= (.!! "memory"))) in Heq.
    vm_compute in Heq. congruence.
Qed.

(** C3, amended. The minimum-resource map has exactly the keys cpu and
    memory.  cpu is the core-request string verbatim when set, otherwise
    the core count as a bare integer string.  memory is the base memory
    plus the explicit overhead when set, otherwise plus the larger of
    384 MiB and base memory times the overhead factor, rounded down to
    whole MiB and written <N>Mi.  The driver with 8 GiB, factor 0.3 and
    core request 2000m over 4 cores gets cpu 2000m and memory 10649Mi; 512
    MiB at the JVM default factor gets 896Mi; every minimum-resource map
    expected by [TestSchedule] is met. *)
Theorem minResource_rounds_down podSpec factor :
  let overhead := memoryOverheadBytes podSpec factor in
  let total := memoryRequestBytes podSpec factor in
  dom (minResource podSpec factor) = {["cpu"; "memory"]} ∧
  minResource podSpec factor !! "cpu"
  = Some (match CoreRequest podSpec with
          | Some coreRequest => coreRequest
          | None => pretty (Cores podSpec)
          end) ∧
  (∃ n : Z,
     minResource podSpec factor !! "memory" = Some (pretty n +:+ "Mi") ∧
     (inject_Z (n * MiB) <= total)%Q ∧ (total < inject_Z ((n + 1) * MiB))%Q) ∧
  (total == inject_Z (Memory podSpec) + overhead)%Q ∧
  (∀ explicit, MemoryOverhead podSpec = Some explicit → overhead = inject_Z explicit) ∧
  (MemoryOverhead podSpec = None →
   (inject_Z minMemoryOverhead <= overhead)%Q ∧
   (inject_Z (Memory podSpec) * factor <= overhead)%Q ∧
   (overhead = inject_Z minMemoryOverhead ∨ overhead = (inject_Z (Memory podSpec) * factor)%Q)) ∧
  minResource (role 4 (Some "2000m") (8 * GiB) None ∅) (3 # 10)
  = resources "2000m" "10649Mi" ∧
  minResource (role 1 None (512 * MiB) None ∅) (memoryOverheadFactor spark_pi_app)
  !! "memory" = Some "896Mi" ∧
  MinResource <$> taskGroups spark_pi_app = MinResource <$> spark_pi_expected ∧
  MinResource <$> taskGroups dynamic_allocation_app
  = MinResource <$> dynamic_allocation_expected ∧
  MinResource <$> taskGroups node_selectors_app = MinResource <$> node_selectors_expected.
Proof.
  intros overhead total. split_and!.
  - unfold minResource, minResourceWith.
    rewrite dom_insert_L, dom_singleton_L. set_solver.
  - unfold minResource, minResourceWith, cpuRequest.
    rewrite lookup_insert_ne by done. by rewrite lookup_singleton_eq.
  - exists (Qfloor (total / inject_Z MiB)). split; [|apply Qfloor_MiB].
    unfold minResource, minResourceWith. by rewrite lookup_insert_eq.
  - reflexivity.
  - intros explicit Hexplicit. subst overhead. unfold memoryOverheadBytes.
    by rewrite Hexplicit.
  - intros Hnone. subst overhead. unfold memoryOverheadBytes. rewrite Hnone.
    apply Qmax_spec.
  - by vm_compute.
  - by vm_compute.
  - by vm_compute.
  - by vm_compute.
  - by vm_compute.
Qed.

(** The executor of the dynamic-allocation case sets its overhead to 2 GiB,
    which is taken as it is. *)
Lemma minResource_rounds_down_witness :
  memoryOverheadBytes (Executor dynamic_allocation_app) (3 # 10) = inject_Z (2 * GiB).
Proof.
  apply (proj1 (proj2 (proj2 (proj2 (proj2
           (minResource_rounds_down (Executor dynamic_allocation_app) (3 # 10))))))
           (2 * GiB)).
  reflexivity.
Defined.

End YunikornFacts.

(** ** More on the pod event router *)

Module PodEventRouting.
Import PodEventHandler.


(** The outcome of routing one pod: the queue as it was, or with the key of
    the pod's application appended. *)
Lemma enqueue_cases s pod queue :
  enqueueSparkAppForUpdate s pod queue = queue ∨
  ∃ appName,
    Labels pod !! SparkAppNameLabel (config s) = Some appName ∧
    enqueueSparkAppForUpdate s pod queue
    = queue ++ [createMetaNamespaceKey (PodNamespace pod) appName].
Proof.
  unfold enqueueSparkAppForUpdate, getAppName.
  destruct (Labels pod !! SparkAppNameLabel (config s)) as [appName|]; simpl; [|by left].
  match goal with |- context [if ?b then _ else _] => destruct b end; [by left|].
  right. by exists appName.
Qed.


(** X2. Every handler is append-only and enqueues at most one key: when it
    returns, the queue is either unchanged or extended at its end by exactly
    the key namespace/name of the application the event's pod is labelled
    with. *)
Theorem handle_appends_at_most_one_key s ev queue queue' :
  handle s ev queue = Returned queue' →
  queue' = queue ∨
  ∃ pod appName,
    carries ev pod ∧
    Labels pod !! SparkAppNameLabel (config s) = Some appName ∧
    queue' = queue ++ [PodNamespace pod +:+ "/" +:+ appName].
Proof.
  intros Hret.
  assert (Hpod : ∀ pod, carries ev pod →
            queue' = enqueueSparkAppForUpdate s pod queue →
            queue' = queue ∨
            ∃ pod appName,
              carries ev pod ∧
              Labels pod !! SparkAppNameLabel (config s) = Some appName ∧
              queue' = queue ++ [PodNamespace pod +:+ "/" +:+ appName]).
  { intros pod Hev ->.
    destruct (enqueue_cases s pod queue) as [->|(appName & Hname & ->)]; [by left|].
    right. by exists pod, appName. }
  destruct ev as [obj|old updated|obj]; simpl in Hret.
  - destruct obj as [|[pod|]| |]; simpl in Hret; try discriminate Hret.
    injection Hret as <-. apply (Hpod pod); [apply carries_added|done].
  - destruct old as [|[oldPod|]| |], updated as [|[pod|]| |];
      unfold onPodUpdated in Hret; simpl in Hret; try discriminate Hret.
    destruct (String.eqb _ _); injection Hret as <-; [by left|].
    apply (Hpod pod); [apply carries_updated|done].
  - destruct obj as [|[pod|]|key [|[pod|]| |]|]; simpl in Hret;
      try discriminate Hret; injection Hret as <-; try by left.
    + apply (Hpod pod); [apply carries_deleted|done].
    + apply (Hpod pod); [apply carries_tombstone|done].
Qed.

Lemma handle_appends_at_most_one_key_witness :
  handle Samples.handler (Added (PodObject (Some RouterSamples.current_pod)))
    ["default/other"]
  = Returned ["default/other"; "default/spark-pi"] ∧
  (["default/other"; "default/spark-pi"] = ["default/other"] ∨
   ∃ pod appName,
     carries (Added (PodObject (Some RouterSamples.current_pod))) pod ∧
     Labels pod !! SparkAppNameLabel (config Samples.handler) = Some appName ∧
     ["default/other"; "default/spark-pi"]
     = ["default/other"] ++ [PodNamespace pod +:+ "/" +:+ appName]).
Proof.
  split; [reflexivity|].
  apply (handle_appends_at_most_one_key Samples.handler
           (Added (PodObject (Some RouterSamples.current_pod))) ["default/other"]).
  reflexivity.
Defined.

(** X3. A pod without a submission-ID label is routed without the index:
    two handlers with the same label keys treat every event about it alike,
    whatever their indexes hold. *)
Theorem unversioned_pod_ignores_index s s' ev pod queue :
  config s = config s' →
  carries ev pod →
  Labels pod !! SubmissionIDLabel (config s) = None →
  handle s ev queue = handle s' ev queue.
Proof.
  intros Hconfig Hev Hsid.
  assert (Henq : enqueueSparkAppForUpdate s pod queue
                 = enqueueSparkAppForUpdate s' pod queue).
  { unfold enqueueSparkAppForUpdate. rewrite <- Hconfig, Hsid. done. }
  destruct Hev; unfold handle, onPodAdded, onPodUpdated, onPodDeleted; simpl;
    rewrite ?Henq; reflexivity.
Qed.

Lemma unversioned_pod_ignores_index_witness :
  handle Samples.handler (Added (PodObject (Some RouterSamples.unversioned_pod))) []
  = handle RouterSamples.empty_index_handler
      (Added (PodObject (Some RouterSamples.unversioned_pod))) [].
Proof.
  apply (unversioned_pod_ignores_index Samples.handler RouterSamples.empty_index_handler
           _ RouterSamples.unversioned_pod);
    [reflexivity | constructor | reflexivity].
Defined.

(** X4. An update is dropped when the resource version did not change and
    is otherwise handled exactly like the addition of the updated pod. *)
Theorem update_is_add_unless_same_version s oldPod pod queue :
  onPodUpdated s (PodObject (Some oldPod)) (PodObject (Some pod)) queue
  = if decide (ResourceVersion pod = ResourceVersion oldPod)
    then Returned queue
    else onPodAdded s (PodObject (Some pod)) queue.
Proof.
  unfold onPodUpdated. simpl.
  destruct (String.eqb_spec (ResourceVersion pod) (ResourceVersion oldPod));
    by case_decide.
Qed.

(** X5. What makes the handlers panic: [onPodAdded] whenever the object is
    not a non-nil pod pointer, [onPodUpdated] whenever one of the two is
    not, and [onPodDeleted] only on a tombstone whose content is not a pod
    pointer.  Every other deletion that is not about a pod, be it the nil
    interface, a nil pod pointer, a value of an unknown type or a tombstone
    wrapping a nil pod pointer, returns with the queue unchanged; and so
    does every deletion, whatever its object, that leaves no pod after
    unwrapping. *)
Theorem handler_panics_iff s queue :
  (∀ obj, onPodAdded s obj queue = Panicked ↔ ∀ pod, obj ≠ PodObject (Some pod)) ∧
  (∀ old updated,
     onPodUpdated s old updated queue = Panicked ↔
     (∀ pod, old ≠ PodObject (Some pod)) ∨ (∀ pod, updated ≠ PodObject (Some pod))) ∧
  (∀ obj, onPodDeleted s obj queue = Panicked ↔
          ∃ key content, obj = DeletedFinalStateUnknown key content ∧
                         ∀ p, content ≠ PodObject p) ∧
  onPodDeleted s NilObject queue = Returned queue ∧
  onPodDeleted s (PodObject None) queue = Returned queue ∧
  (∀ dynamicType, onPodDeleted s (OtherObject dynamicType) queue = Returned queue) ∧
  (∀ key, onPodDeleted s (DeletedFinalStateUnknown key (PodObject None)) queue
          = Returned queue) ∧
  (∀ obj, unwrapDeleted obj = Returned None →
          onPodDeleted s obj queue = Returned queue) ∧
  (∀ obj queue',
     (∀ pod, obj ≠ PodObject (Some pod)) →
     (∀ key pod, obj ≠ DeletedFinalStateUnknown key (PodObject (Some pod))) →
     onPodDeleted s obj queue = Returned queue' → queue' = queue).
Proof.
  split_and!.
  - intros [|[pod|]| |]; simpl; split; try done.
    intros H. by destruct (H pod).
  - intros [|[oldPod|]| |] [|[pod|]| |]; unfold onPodUpdated; simpl;
      (split; [intros H; try (by left); try (by right) | intros [H|H]]);
      try done; try (by destruct (H oldPod)); try (by destruct (H pod));
      by destruct (String.eqb _ _).
  - intros [|[pod|]|key [|[pod|]| |]|]; simpl; split;
      try done; try (intros (key' & content & Heq & Hne); simplify_eq);
      try (by edestruct Hne); try (intros _; eexists _, _; split; [done|done]).
  - reflexivity.
  - reflexivity.
  - reflexivity.
  - reflexivity.
  - intros obj Hnone. unfold onPodDeleted. by rewrite Hnone.
  - intros obj queue' Hlive Htomb Hret.
    destruct obj as [|[pod|]|key [|[pod|]| |]|];
      unfold onPodDeleted in Hret; simpl in Hret;
      try (by destruct (Hlive pod)); try (by destruct (Htomb key pod));
      congruence.
Qed.

(** A value of a type the informer does not deliver for pods is dropped on
    deletion. *)
Lemma handler_panics_iff_witness :
  onPodDeleted Samples.handler (OtherObject "*v1.Service") ["default/other"]
  = Returned ["default/other"].
Proof.
  apply (proj1 (proj2 (proj2 (proj2 (proj2 (proj2 (proj2 (proj2
           (handler_panics_iff Samples.handler ["default/other"]))))))))
           (OtherObject "*v1.Service")).
  reflexivity.
Defined.

End PodEventRouting.

(** ** More on the admission webhook *)

Module WebhookBehaviour.
Import Webhook.



Lemma mutatePods_panics_iff wh review :
  mutatePods wh review = Panicked ↔ Request review = None.
Proof.
  unfold mutatePods. destruct (Request review) as [request|]; [|done].
  split; [|done]. intros H.
  repeat match type of H with
         | context [match ?x with _ => _ end] => destruct x eqn:?
         end; simplify_eq.
Qed.

(** X7. [serve] panics in one situation only: the body is not empty, the
    Content-Type is application/json, the decoder accepts the body, and the
    decoded review has no request. *)
Theorem serve_panics_iff wh r :
  serve wh r = Panicked ↔
  ∃ body review,
    Body r = Some (Ok body) ∧ body ≠ [] ∧
    ContentType r = "application/json" ∧
    Decode wh body = (review, None) ∧ Request review = None.
Proof.
  unfold serve, serveReview. split.
  - intros H.
    destruct (Body r) as [[body|err]|] eqn:Hbody; try done.
    destruct body as [|b body]; [done|]. simpl in H.
    destruct (String.eqb_spec (ContentType r) "application/json") as [Hct|]; [|done].
    simpl in H.
    destruct (Decode wh (b :: body)) as [review [err|]] eqn:Hdec; [done|].
    exists (b :: body), review. split_and!; try done.
    apply (proj1 (mutatePods_panics_iff wh review)).
    by destruct (mutatePods wh review) as [[resp|]|].
  - intros (body & review & Hbody & Hne & Hct & Hdec & Hreq).
    rewrite Hbody, Hct, Hdec. destruct body; [done|]. simpl.
    apply (proj2 (mutatePods_panics_iff wh review)) in Hreq. by rewrite Hreq.
Qed.

(** X8. The shape of every response [mutatePods] produces: it allows the
    pod; it carries a patch exactly when the patch type is JSONPatch; a
    response with a result (the error case) carries no patch and has the
    code 500. *)
Theorem response_shape wh review resp :
  mutatePods wh review = Returned (Some resp) →
  Allowed resp = true ∧
  (is_Some (Patch resp) ↔ PatchType_ resp = Some PatchTypeJSONPatch) ∧
  (is_Some (Result resp) → Patch resp = None) ∧
  (∀ status, Result resp = Some status → Code status = StatusInternalServerError).
Proof.
  unfold mutatePods. intros H.
  repeat match type of H with
         | context [match ?x with _ => _ end] => destruct x eqn:?
         end;
    simplify_eq; simpl;
    (split_and!; [done | split; [intros [? ?]|]; done || by eexists
                 | intros [? ?]; done || done
                 | intros status ?; by simplify_eq]).
Qed.

Lemma response_shape_witness :
  ∃ resp,
    mutatePods WebhookSamples.patching_webhook
      {| Request := Some Samples.pod_request; Response := None |} = Returned (Some resp) ∧
    Patch resp = Some [Byte.x5b; Byte.x5d] ∧
    (is_Some (Patch resp) ↔ PatchType_ resp = Some PatchTypeJSONPatch).
Proof.
  eexists. split; [reflexivity|]. split; [reflexivity|].
  apply (response_shape WebhookSamples.patching_webhook
           {| Request := Some Samples.pod_request; Response := None |}).
  reflexivity.
Defined.

(** X9. Pods outside the configured job namespace, and pods whose
    application-name label is missing or empty, are let through with the
    bare allowing response, whatever the index holds.  A pod is inside the
    job namespace when that is the all-namespaces value or equals the
    request's namespace. *)
Theorem pass_through wh review request pod :
  Request review = Some request →
  RequestResource request = podResource →
  jsonUnmarshalPod wh (ObjectRaw request) = Ok pod →
  (inSparkJobNamespace (RequestNamespace request) (sparkJobNamespace wh) = true
   ↔ sparkJobNamespace wh = NamespaceAll
     ∨ RequestNamespace request = sparkJobNamespace wh) ∧
  ((sparkJobNamespace wh ≠ NamespaceAll
    ∧ RequestNamespace request ≠ sparkJobNamespace wh)
   ∨ Labels pod !! SparkAppNameLabel wh = None
   ∨ Labels pod !! SparkAppNameLabel wh = Some "" →
   mutatePods wh review = Returned (Some (allowedResponse ""))).
Proof.
  intros Hreq Hres Hun.
  assert (Hns : inSparkJobNamespace (RequestNamespace request) (sparkJobNamespace wh) = true
                ↔ sparkJobNamespace wh = NamespaceAll
                  ∨ RequestNamespace request = sparkJobNamespace wh).
  { unfold inSparkJobNamespace.
    destruct (String.eqb_spec (sparkJobNamespace wh) NamespaceAll);
      destruct (String.eqb_spec (RequestNamespace request) (sparkJobNamespace wh));
      (split; [auto; discriminate | intros [?|?]; done]). }
  split; [done|].
  unfold mutatePods, map_index. rewrite Hreq, Hres, Hun.
  rewrite bool_decide_eq_true_2 by done. simpl.
  intros [[Hall Hne]|[Hlabel|Hlabel]].
  - destruct (inSparkJobNamespace _ _) eqn:Hin.
    + destruct (proj1 Hns eq_refl); done.
    + by rewrite orb_true_r.
  - rewrite Hlabel. simpl. by destruct (negb _ || negb _).
  - rewrite Hlabel. simpl. by destruct (negb _ || negb _).
Qed.

Lemma pass_through_witness :
  mutatePods Samples.webhook {| Request := Some Samples.pod_request; Response := None |}
  = Returned (Some (allowedResponse "")).
Proof.
  apply (proj2 (pass_through Samples.webhook
                  {| Request := Some Samples.pod_request; Response := None |}
                  Samples.pod_request Samples.plain_pod eq_refl eq_refl eq_refl)).
  right. left. reflexivity.
Defined.

(** X10. For an operator pod in the job namespace whose application is in
    the index, the response carries the marshaled patch operations with
    the JSONPatch type when there are any, and is the bare allowing
    response, without the marshaler being asked, when there are none. *)
Theorem patch_attached wh review request pod appName app :
  Request review = Some request →
  RequestResource request = podResource →
  jsonUnmarshalPod wh (ObjectRaw request) = Ok pod →
  isSparkPod wh pod = true →
  inSparkJobNamespace (RequestNamespace request) (sparkJobNamespace wh) = true →
  Labels pod !! SparkAppNameLabel wh = Some appName → appName ≠ "" →
  lister wh (RequestNamespace request) appName = Ok app →
  (patchSparkPod wh pod app = [] →
   mutatePods wh review = Returned (Some (allowedResponse ""))) ∧
  (∀ patchBytes,
     patchSparkPod wh pod app ≠ [] →
     jsonMarshalPatch wh (patchSparkPod wh pod app) = Ok patchBytes →
     mutatePods wh review
     = Returned (Some {| UID := ""; Allowed := true; Result := None;
                         Patch := Some patchBytes;
                         PatchType_ := Some PatchTypeJSONPatch |})).
Proof.
  intros Hreq Hres Hun Hspark Hns Hlabel Hname Hget.
  unfold mutatePods, map_index. rewrite Hreq, Hres, Hun, Hspark, Hns, Hlabel.
  rewrite bool_decide_eq_true_2 by done. simpl.
  destruct (String.eqb_spec appName "") as [?|_]; [done|].
  rewrite Hget. split.
  - by intros ->.
  - intros patchBytes Hops ->. by destruct (patchSparkPod wh pod app).
Qed.

Lemma patch_attached_witness :
  mutatePods WebhookSamples.patching_webhook
    {| Request := Some Samples.pod_request; Response := None |}
  = Returned (Some {| UID := ""; Allowed := true; Result := None;
                      Patch := Some [Byte.x5b; Byte.x5d];
                      PatchType_ := Some PatchTypeJSONPatch |}).
Proof.
  apply (proj2 (patch_attached WebhookSamples.patching_webhook
                  {| Request := Some Samples.pod_request; Response := None |}
                  Samples.pod_request WebhookSamples.driver_pod "spark-pi" Samples.spark_pi
                  eq_refl eq_refl eq_refl eq_refl eq_refl eq_refl
                  ltac:(discriminate) eq_refl));
    [discriminate | reflexivity].
Defined.

(** X11. Whenever the decoded review has a request, the response [serve]
    is about to write carries that request's UID, on the error path of the
    decoder and on every path of [mutatePods] alike. *)
Theorem response_echoes_uid wh r body review decodeErr request response resp :
  Body r = Some (Ok body) →
  Decode wh body = (review, decodeErr) →
  Request review = Some request →
  serveReview wh r = Returned (inr response) →
  Response response = Some resp →
  UID resp = RequestUID request.
Proof.
  intros Hbody Hdec Hreq. unfold serveReview. rewrite Hbody, Hdec, Hreq.
  destruct (Z.of_nat (length body) =? 0); [done|].
  destruct (negb _); [done|].
  destruct decodeErr as [err|].
  - intros [= <-] [= <-]. reflexivity.
  - destruct (mutatePods wh review) as [[resp'|]|]; [| |done].
    + intros [= <-] [= <-]. reflexivity.
    + intros [= <-]. done.
Qed.

Lemma response_echoes_uid_witness :
  serveReview Samples.webhook (Samples.json_request [Samples.byte_x])
  = Returned (inr {| Request := None; Response := Some (allowedResponse "uid-1") |}) ∧
  UID (allowedResponse "uid-1") = "uid-1".
Proof.
  split; [reflexivity|].
  apply (response_echoes_uid Samples.webhook (Samples.json_request [Samples.byte_x])
           [Samples.byte_x] {| Request := Some Samples.pod_request; Response := None |}
           None Samples.pod_request
           {| Request := None; Response := Some (allowedResponse "uid-1") |}
           (allowedResponse "uid-1") eq_refl eq_refl eq_refl eq_refl eq_refl).
Defined.



End WebhookBehaviour.

(** ** The certificate provider *)

Module CertsFacts.
Import Certs.

Section CertProvider.
Context {Disk Certificate : Type}.
Variable LoadX509KeyPair : Disk → string → string → result Certificate.

Local Abbreviation updateCert := (updateCert LoadX509KeyPair).
Local Abbreviation reloadLoop := (reloadLoop LoadX509KeyPair).
Local Abbreviation loadedBeforeStop := (loadedBeforeStop LoadX509KeyPair).
Local Abbreviation NewCertProvider := (NewCertProvider LoadX509KeyPair).

Lemma updateCert_files disk (c : certProvider Certificate) :
  serverCertFile (updateCert disk c) = serverCertFile c ∧
  serverKeyFile (updateCert disk c) = serverKeyFile c ∧
  caCertFile (updateCert disk c) = caCertFile c ∧
  stopChannelClosed (updateCert disk c) = stopChannelClosed c.
Proof. unfold Certs.updateCert. by destruct (LoadX509KeyPair _ _ _). Qed.

(** X13. However many reloads run and however many of them fail, the
    certificate served is the one loaded last before the goroutine
    received the stop, or the initial one when none loaded;
    [GetCertificate] never answers with an error; the file names and the
    stop channel are left as they were. *)
Theorem reload_serves_last_loaded received (c : certProvider Certificate) :
  let c' := reloadLoop received c in
  GetCertificate c'
  = Ok (default (currentCert c)
          (last (loadedBeforeStop (serverCertFile c) (serverKeyFile c) received))) ∧
  serverCertFile c' = serverCertFile c ∧
  serverKeyFile c' = serverKeyFile c ∧
  caCertFile c' = caCertFile c ∧
  stopChannelClosed c' = stopChannelClosed c.
Proof.
  revert c. induction received as [|[|disk] received IH]; intros c; simpl; [done..|].
  destruct (IH (updateCert disk c)) as (Hget & Hcert & Hkey & Hca & Hstop).
  destruct (updateCert_files disk c) as (Hcert' & Hkey' & Hca' & Hstop').
  rewrite Hcert', Hkey' in Hget.
  split_and!; try congruence.
  rewrite Hget. f_equal. unfold Certs.updateCert.
  destruct (LoadX509KeyPair disk (serverCertFile c) (serverKeyFile c)) as [cert|err];
    simpl; [|done].
  rewrite last_cons. by destruct (last _).
Qed.

(** X14. A reload that fails to load the key pair leaves the provider
    exactly as it was, and what is received after the stop is never
    acted upon. *)
Theorem reload_failures_and_stop received rest (c : certProvider Certificate) :
  (Forall (λ r, match r with
                | StopReceived => True
                | TickReceived disk =>
                    ∃ err, LoadX509KeyPair disk (serverCertFile c) (serverKeyFile c)
                           = Err err
                end) received →
   reloadLoop received c = c) ∧
  reloadLoop (received ++ StopReceived :: rest) c
  = reloadLoop (received ++ [StopReceived]) c.
Proof.
  split.
  - induction 1 as [|[|disk] received Hfail _ IH]; simpl; [done..|].
    destruct Hfail as [err Hfail]. unfold Certs.updateCert at 1. rewrite Hfail.
    apply IH.
  - revert c. induction received as [|[|disk] received IH]; intros c; simpl; auto.
Qed.

(** X15. [NewCertProvider] returns an error exactly when the key pair
    does not load, and that error; it panics exactly when the pair loads
    but the reload interval is not positive; the provider it returns
    serves the loaded certificate, has an open stop channel and
    remembers the three file names. *)
Theorem NewCertProvider_outcomes disk certFile keyFile caFile interval :
  (∀ err, NewCertProvider disk certFile keyFile caFile interval = Returned (Err err)
          ↔ LoadX509KeyPair disk certFile keyFile = Err err) ∧
  (NewCertProvider disk certFile keyFile caFile interval = Panicked
   ↔ (∃ cert, LoadX509KeyPair disk certFile keyFile = Ok cert) ∧ interval ≤ 0) ∧
  (∀ c, NewCertProvider disk certFile keyFile caFile interval = Returned (Ok c) →
        LoadX509KeyPair disk certFile keyFile = Ok (currentCert c) ∧
        0 < interval ∧ reloadInterval c = interval ∧
        stopChannelClosed c = false ∧
        serverCertFile c = certFile ∧ serverKeyFile c = keyFile ∧
        caCertFile c = caFile).
Proof.
  unfold Certs.NewCertProvider.
  destruct (LoadX509KeyPair disk certFile keyFile) as [cert|err'].
  - destruct (Z.leb_spec interval 0); split_and!.
    + done.
    + split; [eauto|done].
    + done.
    + done.
    + split; [done|]. intros [_ ?]. lia.
    + intros c [= <-]. simpl. split_and!; done || lia.
  - split_and!.
    + intros err. split; congruence.
    + split; [done|]. by intros [[cert ?] _].
    + done.
Qed.

(** X16. [Stop] closes the stop channel and stops the ticker without
    touching the certificate, which [GetCertificate] keeps serving; a
    second [Stop] panics on the closed channel. *)
Theorem Stop_once (c c' : certProvider Certificate) :
  Stop c = Returned c' →
  stopChannelClosed c = false ∧
  stopChannelClosed c' = true ∧ tickerStopped c' = true ∧
  GetCertificate c' = GetCertificate c ∧
  Stop c' = Panicked.
Proof.
  unfold Stop. destruct (stopChannelClosed c) eqn:Hclosed; [done|].
  by intros [= <-].
Qed.

End CertProvider.

Lemma NewCertProvider_outcomes_witness :
  NewCertProvider LifecycleSamples.load ["server-cert.pem"]
    "server-cert.pem" "server-key.pem" "ca-cert.pem" 0
  = Panicked.
Proof.
  apply (proj1 (proj2 (NewCertProvider_outcomes LifecycleSamples.load ["server-cert.pem"]
                         "server-cert.pem" "server-key.pem" "ca-cert.pem" 0))).
  split; [by exists "server-cert.pem" | reflexivity].
Defined.

Lemma reload_failures_and_stop_witness :
  reloadLoop LifecycleSamples.load [TickReceived ["other.pem"]; StopReceived]
    LifecycleSamples.sample_provider
  = LifecycleSamples.sample_provider.
Proof.
  apply (proj1 (reload_failures_and_stop LifecycleSamples.load
                  [TickReceived ["other.pem"]; StopReceived] []
                  LifecycleSamples.sample_provider)).
  repeat constructor. exists "no such file". reflexivity.
Defined.

Lemma Stop_once_witness :
  Stop (updateCert LifecycleSamples.load ["server-cert.pem"]
          LifecycleSamples.sample_provider)
  = Returned
      {| serverCertFile := "server-cert.pem"; serverKeyFile := "server-key.pem";
         caCertFile := "ca-cert.pem"; reloadInterval := 15;
         currentCert := "server-cert.pem";
         stopChannelClosed := true; tickerStopped := true |} ∧
  Stop {| serverCertFile := "server-cert.pem"; serverKeyFile := "server-key.pem";
          caCertFile := "ca-cert.pem"; reloadInterval := 15;
          currentCert := "server-cert.pem";
          stopChannelClosed := true; tickerStopped := true |}
  = Panicked.
Proof.
  split; [reflexivity|].
  apply (Stop_once (updateCert LifecycleSamples.load ["server-cert.pem"]
                      LifecycleSamples.sample_provider)).
  reflexivity.
Defined.

End CertsFacts.

(** ** Registration with the API server *)

Module RegistrationFacts.
Import Registration.

(** Case analysis on the membership of a call in an explicit list of calls. *)
Ltac in_calls H :=
  repeat (apply elem_of_cons in H as [H|H]; [try discriminate H|]);
  try (by apply elem_of_nil in H);
  try (injection H as ->).

(** X17. [selfRegistration] makes one read and at most one write.  An
    update is sent only for a configuration that [Get] returned without
    error and whose webhooks differ from the computed one; it keeps the
    name and metadata of that configuration and replaces its webhooks.  A
    creation is sent only when [Get] answered not-found or returned no
    object; it carries the given name.  Whatever is written holds exactly
    the one computed webhook, and nothing is ever deleted. *)
Theorem registration_writes client serviceRef caFile name :
  let calls := (selfRegistration client serviceRef caFile name).1 in
  calls = GetCall name :: writes calls ∧
  (length (writes calls) ≤ 1)%nat ∧
  (∀ config, UpdateCall config ∈ calls →
     ∃ existing caCert,
       Get client name = (Some existing, None) ∧
       ReadFile client caFile = Ok caCert ∧
       Webhooks existing ≠ [webhookFor serviceRef caCert] ∧
       config = {| ConfigName := ConfigName existing;
                   ConfigMeta := ConfigMeta existing;
                   Webhooks := [webhookFor serviceRef caCert] |}) ∧
  (∀ config, CreateCall config ∈ calls →
     ∃ caCert,
       ReadFile client caFile = Ok caCert ∧
       (Get client name = (None, None)
        ∨ ∃ existing err, Get client name = (existing, Some err) ∧ IsNotFound err = true) ∧
       config = {| ConfigName := name; ConfigMeta := [];
                   Webhooks := [webhookFor serviceRef caCert] |}) ∧
  (∀ name', DeleteCall name' ∉ calls).
Proof.
  unfold selfRegistration.
  destruct (Get client name) as [existing [err|]] eqn:Hget.
  - destruct (IsNotFound err) eqn:Hnf; simpl.
    + destruct (ReadFile client caFile) as [caCert|err'] eqn:Hread; simpl.
      * split_and!; [done | lia | | |]; intros ? Hin; in_calls Hin.
        exists caCert. split_and!; eauto.
      * split_and!; [done | lia | | |]; intros ? Hin; in_calls Hin.
    + split_and!; [done | lia | | |]; intros ? Hin; in_calls Hin.
  - destruct (ReadFile client caFile) as [caCert|err'] eqn:Hread; simpl.
    + destruct existing as [existing|].
      * destruct (decide ([webhookFor serviceRef caCert] = Webhooks existing)) as [Heq|Hne].
        -- rewrite bool_decide_eq_true_2 by done. simpl.
           split_and!; [done | lia | | |]; intros ? Hin; in_calls Hin.
        -- rewrite bool_decide_eq_false_2 by done. simpl.
           split_and!; [done | lia | | |]; intros ? Hin; in_calls Hin.
           exists existing, caCert. split_and!; [done | done | congruence | done].
      * simpl. split_and!; [done | lia | | |]; intros ? Hin; in_calls Hin.
        exists caCert. split_and!; eauto.
    + split_and!; [done | lia | | |]; intros ? Hin; in_calls Hin.
Qed.

Lemma registration_writes_witness :
  ∃ caCert,
    ReadFile LifecycleSamples.fresh_cluster "ca-cert.pem" = Ok caCert ∧
    (Get LifecycleSamples.fresh_cluster "spark-webhook-config" = (None, None)
     ∨ ∃ existing err,
         Get LifecycleSamples.fresh_cluster "spark-webhook-config" = (existing, Some err)
         ∧ IsNotFound err = true) ∧
    LifecycleSamples.registered
    = {| ConfigName := "spark-webhook-config"; ConfigMeta := [];
         Webhooks := [webhookFor (Some LifecycleSamples.sample_service) caCert] |}.
Proof.
  apply (proj1 (proj2 (proj2 (proj2
           (registration_writes LifecycleSamples.fresh_cluster
              (Some LifecycleSamples.sample_service) "ca-cert.pem"
              "spark-webhook-config"))))).
  simpl. apply list_elem_of_In. right. left. reflexivity.
Defined.

(** X18. A failed [Get] other than not-found, and a CA file that cannot
    be read, each end the registration with that error and without any
    write. *)
Theorem registration_fails_without_write client serviceRef caFile name :
  (∀ existing err,
     Get client name = (existing, Some err) → IsNotFound err = false →
     selfRegistration client serviceRef caFile name
     = ([GetCall name], Some (ErrorText err))) ∧
  (∀ err,
     ReadFile client caFile = Err err →
     writes (selfRegistration client serviceRef caFile name).1 = [] ∧
     is_Some (selfRegistration client serviceRef caFile name).2 ∧
     ((∀ existing getErr, Get client name = (existing, Some getErr) →
                          IsNotFound getErr = true) →
      (selfRegistration client serviceRef caFile name).2 = Some err)).
Proof.
  unfold selfRegistration. split.
  - intros existing err -> Hnf. by rewrite Hnf.
  - intros err ->.
    destruct (Get client name) as [existing [getErr|]] eqn:Hget.
    + destruct (IsNotFound getErr) eqn:Hnf; simpl.
      * split_and!; [done|by eexists|done].
      * split_and!; [done|by eexists|].
        intros Hall. specialize (Hall existing getErr eq_refl). congruence.
    + split_and!; [done|by eexists|done].
Qed.

Lemma registration_fails_without_write_witness :
  selfRegistration LifecycleSamples.closed_cluster
    (Some LifecycleSamples.sample_service) "ca-cert.pem" "spark-webhook-config"
  = ([GetCall "spark-webhook-config"], Some "forbidden").
Proof.
  apply (proj1 (registration_fails_without_write LifecycleSamples.closed_cluster
                  (Some LifecycleSamples.sample_service) "ca-cert.pem"
                  "spark-webhook-config") None LifecycleSamples.forbidden);
    reflexivity.
Defined.

(** X19. Registration is idempotent: when the cluster returns the
    configuration that a registration has just created or updated, and the
    CA file reads the same, registering again writes nothing and succeeds. *)
Theorem registration_idempotent client client' serviceRef caFile name config :
  CreateCall config ∈ (selfRegistration client serviceRef caFile name).1
  ∨ UpdateCall config ∈ (selfRegistration client serviceRef caFile name).1 →
  Get client' name = (Some config, None) →
  ReadFile client' caFile = ReadFile client caFile →
  selfRegistration client' serviceRef caFile name = ([GetCall name], None).
Proof.
  intros Hwritten Hget Hread.
  destruct (registration_writes client serviceRef caFile name)
    as (_ & _ & Hupdate & Hcreate & _).
  assert (∃ caCert, ReadFile client caFile = Ok caCert ∧
                    Webhooks config = [webhookFor serviceRef caCert])
    as (caCert & Hca & Hwebhooks).
  { destruct Hwritten as [Hin|Hin].
    - destruct (Hcreate config Hin) as (caCert & ? & _ & ->). by exists caCert.
    - destruct (Hupdate config Hin) as (existing & caCert & _ & ? & _ & ->).
      by exists caCert. }
  unfold selfRegistration. rewrite Hget, Hread, Hca, Hwebhooks.
  by rewrite bool_decide_eq_true_2.
Qed.

Lemma registration_idempotent_witness :
  selfRegistration (LifecycleSamples.cluster_with LifecycleSamples.registered)
    (Some LifecycleSamples.sample_service) "ca-cert.pem" "spark-webhook-config"
  = ([GetCall "spark-webhook-config"], None).
Proof.
  apply (registration_idempotent LifecycleSamples.fresh_cluster
           (LifecycleSamples.cluster_with LifecycleSamples.registered)
           (Some LifecycleSamples.sample_service) "ca-cert.pem" "spark-webhook-config"
           LifecycleSamples.registered);
    [left; simpl; apply list_elem_of_In; right; left; reflexivity
    | reflexivity | reflexivity].
Defined.

End RegistrationFacts.

(** ** The life cycle of the webhook *)

Module LifecycleFacts.
Import Certs Registration Lifecycle.

Section WebHook.
Context {Disk Certificate : Type}.
Variable LoadX509KeyPair : Disk → string → string → result Certificate.

(** X20. [Stop] stops nothing when the deregistration fails: it returns
    that error with the webhook as it was, the reloader and the server
    still running.  When the deregistration succeeds it stops the
    certificate provider, calls [Shutdown] and returns what [Shutdown]
    returns; on a provider that was already stopped it panics before
    [Shutdown] is called. *)
Theorem Stop_outcomes client shutdown (wh : WebHook Certificate) name :
  (∀ err, DeleteConfig client name = Some err →
          Lifecycle.Stop client shutdown wh name
          = Returned (wh, [DeleteCall name], Some (ErrorText err))) ∧
  (DeleteConfig client name = None →
   stopChannelClosed (provider wh) = false →
   ∃ wh', Lifecycle.Stop client shutdown wh name
          = Returned (wh', [DeleteCall name], shutdown) ∧
          stopChannelClosed (provider wh') = true ∧
          shutdownCalled wh' = true ∧
          GetCertificate (provider wh') = GetCertificate (provider wh)) ∧
  (DeleteConfig client name = None →
   stopChannelClosed (provider wh) = true →
   Lifecycle.Stop client shutdown wh name = Panicked).
Proof.
  unfold Lifecycle.Stop, selfDeregistration, Certs.Stop. split_and!.
  - by intros err ->.
  - intros -> ->. simpl. by eexists.
  - by intros -> ->.
Qed.


End WebHook.

Lemma Stop_outcomes_witness :
  Lifecycle.Stop LifecycleSamples.closed_cluster None LifecycleSamples.sample_webhook
    "spark-webhook-config"
  = Returned (LifecycleSamples.sample_webhook, [DeleteCall "spark-webhook-config"],
              Some "forbidden").
Proof.
  apply (proj1 (Stop_outcomes LifecycleSamples.closed_cluster None
                  LifecycleSamples.sample_webhook "spark-webhook-config")
           LifecycleSamples.forbidden).
  reflexivity.
Defined.


End LifecycleFacts.

(** ** More on the metrics exporter *)

Module MetricsBehaviour.
Import Metrics MetricLabels.

Section Labels.
Variable CreateValidMetricNameLabel : string → string → string.

Local Abbreviation sanitized := (CreateValidMetricNameLabel "").
Local Abbreviation validSpecLabels := (validSpecLabels CreateValidMetricNameLabel).
Local Abbreviation fetchMetricLabelsIn := (fetchMetricLabelsIn CreateValidMetricNameLabel).

Lemma validSpecLabels_snoc entries entry :
  validSpecLabels (entries ++ [entry])
  = <[sanitized entry.1 := entry.2]> (validSpecLabels entries).
Proof. unfold MetricLabels.validSpecLabels. by rewrite foldl_snoc. Qed.

Lemma validSpecLabels_Some entries label value :
  validSpecLabels entries !! label = Some value →
  ∃ labelKey, (labelKey, value) ∈ entries ∧ sanitized labelKey = label.
Proof.
  induction entries as [|[labelKey v] entries IH] using rev_ind; [done|].
  rewrite validSpecLabels_snoc. simpl.
  destruct (decide (sanitized labelKey = label)) as [<-|Hne].
  - rewrite lookup_insert_eq. intros [= ->]. exists labelKey.
    split; [|done]. apply elem_of_app. right. by left.
  - rewrite lookup_insert_ne by done. intros (k & Hin & Hk)%IH.
    exists k. split; [|done]. apply elem_of_app. by left.
Qed.

Lemma validSpecLabels_None entries label :
  validSpecLabels entries !! label = None ↔
  ∀ labelKey value, (labelKey, value) ∈ entries → sanitized labelKey ≠ label.
Proof.
  induction entries as [|[labelKey v] entries IH] using rev_ind.
  - split; [|done]. intros _ ? ? Hin. by apply elem_of_nil in Hin.
  - rewrite validSpecLabels_snoc. simpl.
    destruct (decide (sanitized labelKey = label)) as [<-|Hne].
    + rewrite lookup_insert_eq. split; [done|]. intros Hall.
      destruct (Hall labelKey v); [|done]. apply elem_of_app. right. by left.
    + rewrite lookup_insert_ne by done. rewrite IH. split.
      * intros Hall k v' [Hin|Hin]%elem_of_app; [by eapply Hall|].
        apply list_elem_of_singleton in Hin. by simplify_eq.
      * intros Hall k v' Hin. eapply Hall. apply elem_of_app. by left.
Qed.

Lemma metricLabelsFrom_lookup valid labels label :
  metricLabelsFrom valid labels !! label
  = if decide (label ∈ labels) then Some (default "Unknown" (valid !! label)) else None.
Proof.
  unfold metricLabelsFrom.
  induction labels as [|l labels IH] using rev_ind.
  - rewrite decide_False by apply not_elem_of_nil. apply lookup_empty.
  - rewrite foldl_snoc.
    destruct (decide (l = label)) as [->|Hne].
    + rewrite decide_True by (apply elem_of_app; right; by left).
      destruct (valid !! label); by rewrite lookup_insert_eq.
    + assert (Hstep : ∀ m : gmap string string,
                match valid !! l with
                | Some value => <[l := value]> m
                | None => <[l := "Unknown"]> m
                end !! label = m !! label).
      { intros m. destruct (valid !! l); by rewrite lookup_insert_ne. }
      rewrite Hstep, IH.
      destruct (decide (label ∈ labels)) as [Hin|Hnin].
      * by rewrite decide_True by (apply elem_of_app; by left).
      * rewrite decide_False; [done|].
        intros [?|Hl]%elem_of_app; [done|].
        apply list_elem_of_singleton in Hl. congruence.
Qed.

(** X22. Whatever order the iteration over the application's labels
    takes, [fetchMetricLabels] returns a map with exactly the configured
    label names as keys.  The value of a name is that of an application
    label whose sanitised key is the name, or "Unknown" when no
    application label sanitises to it; and when exactly one application
    label sanitises to a configured name, its value is that label's. *)
Theorem fetchMetricLabels_keys_and_values specLabels entries labels :
  entries ≡ₚ map_to_list specLabels →
  let metricLabels := fetchMetricLabelsIn entries labels in
  (∀ label, is_Some (metricLabels !! label) ↔ label ∈ labels) ∧
  (∀ label value,
     metricLabels !! label = Some value →
     (∃ labelKey, specLabels !! labelKey = Some value ∧ sanitized labelKey = label)
     ∨ (value = "Unknown"
        ∧ ∀ labelKey, is_Some (specLabels !! labelKey) → sanitized labelKey ≠ label)) ∧
  (∀ labelKey value,
     specLabels !! labelKey = Some value →
     sanitized labelKey ∈ labels →
     (∀ other, is_Some (specLabels !! other) →
               sanitized other = sanitized labelKey → other = labelKey) →
     metricLabels !! sanitized labelKey = Some value).
Proof.
  intros Hperm metricLabels. subst metricLabels.
  unfold MetricLabels.fetchMetricLabelsIn.
  assert (Hentry : ∀ k v, (k, v) ∈ entries ↔ specLabels !! k = Some v).
  { intros k v. rewrite Hperm. apply elem_of_map_to_list. }
  split_and!.
  - intros label. rewrite metricLabelsFrom_lookup.
    case_decide; split; done.
  - intros label value. rewrite metricLabelsFrom_lookup.
    case_decide; [|done].
    destruct (validSpecLabels entries !! label) as [v|] eqn:Hvalid; simpl; intros [= <-].
    + left. apply validSpecLabels_Some in Hvalid as (k & Hin & Hk).
      exists k. split; [by apply Hentry|done].
    + right. split; [done|]. intros k [v Hk].
      eapply (proj1 (validSpecLabels_None entries label)); [done|].
      by apply Hentry.
  - intros labelKey value Hlookup Hin Hunique.
    rewrite metricLabelsFrom_lookup, decide_True by done.
    destruct (validSpecLabels entries !! sanitized labelKey) as [v|] eqn:Hvalid; simpl.
    + apply validSpecLabels_Some in Hvalid as (k & Hk & Hsame).
      apply Hentry in Hk.
      assert (k = labelKey) as -> by (apply Hunique; [by eexists|done]).
      congruence.
    + exfalso.
      eapply (proj1 (validSpecLabels_None entries (sanitized labelKey))); [done| |done].
      by apply Hentry.
Qed.

End Labels.

Lemma fetchMetricLabels_keys_and_values_witness :
  fetchMetricLabels MetricSamples.sanitize MetricSamples.app_labels
    [ "app_id"; "namespace" ] !! "app_id" = Some "test1"
  ∧ fetchMetricLabels MetricSamples.sanitize MetricSamples.app_labels
      [ "app_id"; "namespace" ] !! "namespace" = Some "Unknown".
Proof.
  split; [|reflexivity].
  apply (proj2 (proj2 (fetchMetricLabels_keys_and_values MetricSamples.sanitize
                         MetricSamples.app_labels
                         (map_to_list MetricSamples.app_labels)
                         [ "app_id"; "namespace" ] (reflexivity _)))
           "app-id" "test1").
  - reflexivity.
  - apply list_elem_of_In. left. reflexivity.
  - intros other [v Hother] Hsame.
    destruct (decide (other = "app-id")) as [->|Hne1]; [reflexivity|].
    destruct (decide (other = "team")) as [->|Hne2]; [discriminate Hsame|].
    unfold MetricSamples.app_labels in Hother.
    rewrite lookup_insert_ne, lookup_singleton_ne in Hother by done.
    discriminate Hother.
Defined.

Lemma count_call_bind_sum (c c1 c2 : MetricCall) {A} (f : A → list MetricCall) entries :
  (∀ entry, count_call c (f entry) = (count_call c1 (f entry) + count_call c2 (f entry))%nat) →
  count_call c (entries ≫= f)
  = (count_call c1 (entries ≫= f) + count_call c2 (entries ≫= f))%nat.
Proof.
  intros Hbody. induction entries as [|entry entries IH]; [done|].
  rewrite bind_cons, !MetricsFacts.count_call_app, IH, Hbody. lia.
Qed.

Lemma count_call_bind_zero (c : MetricCall) {A} (f : A → list MetricCall) entries :
  (∀ entry, count_call c (f entry) = 0%nat) →
  count_call c (entries ≫= f) = 0%nat.
Proof.
  intros Hbody. induction entries as [|entry entries IH]; [done|].
  by rewrite bind_cons, MetricsFacts.count_call_app, IH, Hbody.
Qed.

Lemma count_observe_zero c s newStatus :
  (∀ s' v, c ≠ Observe s' v) → count_call c (observeExecutionTime s newStatus) = 0%nat.
Proof.
  intros Hc. unfold observeExecutionTime, count_call.
  destruct (negb _ && negb _); [|done].
  rewrite filter_cons, decide_False by (apply not_eq_sym, Hc). done.
Qed.

(** X24. Decrements match terminations.  In every export, the running
    gauge of executors is decremented as often as the executor success and
    failure counters together are incremented, and the running gauge of
    applications as often as the application success and failure counters
    together; either gauge is decremented only together with such an
    increment. *)
Theorem decrements_match_terminations oldApp newApp :
  let calls := exportMetrics oldApp newApp in
  count_call (GaugeDec sparkAppExecutorRunningCount) calls
  = (count_call (CounterInc sparkAppExecutorSuccessCount) calls
     + count_call (CounterInc sparkAppExecutorFailureCount) calls)%nat ∧
  count_call (GaugeDec sparkAppRunningCount) calls
  = (count_call (CounterInc sparkAppSuccessCount) calls
     + count_call (CounterInc sparkAppFailureCount) calls)%nat ∧
  (count_call (GaugeDec sparkAppRunningCount) calls ≤ 1)%nat.
Proof.
  intros calls. subst calls. unfold exportMetrics.
  rewrite !MetricsFacts.count_call_app.
  set (app := exportAppStateMetrics (Status oldApp) (Status newApp)).
  set (loop := exportExecutorStateMetrics (Status oldApp) (Status newApp)).
  assert (Hloop : ∀ c,
            (∀ entry, count_call c
                        (exportExecutorMetrics (ExecutorStates (Status oldApp)) entry)
                      = 0%nat) →
            count_call c loop = 0%nat).
  { intros c Hc. by apply count_call_bind_zero. }
  assert (Hl1 : count_call (GaugeDec sparkAppRunningCount) loop = 0%nat).
  { apply Hloop. intros [executor state]. unfold exportExecutorMetrics.
    destruct state; try reflexivity; destruct (negb _); reflexivity. }
  assert (Hl2 : count_call (CounterInc sparkAppSuccessCount) loop = 0%nat).
  { apply Hloop. intros [executor state]. unfold exportExecutorMetrics.
    destruct state; try reflexivity; destruct (negb _); reflexivity. }
  assert (Hl3 : count_call (CounterInc sparkAppFailureCount) loop = 0%nat).
  { apply Hloop. intros [executor state]. unfold exportExecutorMetrics.
    destruct state; try reflexivity; destruct (negb _); reflexivity. }
  assert (Hl4 : count_call (GaugeDec sparkAppExecutorRunningCount) loop
                = (count_call (CounterInc sparkAppExecutorSuccessCount) loop
                   + count_call (CounterInc sparkAppExecutorFailureCount) loop)%nat).
  { apply count_call_bind_sum. intros [executor state]. unfold exportExecutorMetrics.
    destruct state; try reflexivity; destruct (negb _); reflexivity. }
  assert (Happ : ∀ c, (∀ s v, c ≠ Observe s v) →
            count_call c app
            = count_call c
                (if negb (bool_decide (AppState (Status newApp) = AppState (Status oldApp)))
                 then match AppState (Status newApp) with
                      | SubmittedState => [CounterInc sparkAppSubmitCount]
                      | RunningState => [GaugeInc sparkAppRunningCount]
                      | SucceedingState =>
                          [GaugeDec sparkAppRunningCount; CounterInc sparkAppSuccessCount]
                      | FailingState =>
                          [GaugeDec sparkAppRunningCount; CounterInc sparkAppFailureCount]
                      | FailedSubmissionState => [CounterInc sparkAppFailedSubmissionCount]
                      | _ => []
                      end
                 else [])).
  { intros c Hc. subst app. unfold exportAppStateMetrics.
    destruct (negb (bool_decide _)); [|done].
    destruct (AppState (Status newApp)); try done;
      rewrite MetricsFacts.count_call_app, count_observe_zero by done; done. }
  rewrite !Happ by done. rewrite Hl1, Hl2, Hl3, Hl4.
  destruct (negb (bool_decide _)); [destruct (AppState (Status newApp))|];
    split_and!; simpl; reflexivity || lia || (unfold count_call; simpl; lia).
Qed.

(** X25. Every execution duration the exporter observes comes from a
    status in which both times are set, is the saturated difference of the
    two in whole microseconds, lies within the range of a 64-bit duration,
    is non-negative when the termination is not before the last submission
    attempt, and is negative when it is before it by a microsecond or
    more: the guard does not exclude negative durations. *)
Theorem observed_durations oldApp newApp s v :
  (s, v) ∈ observations (exportMetrics oldApp newApp) →
  let submitted := LastSubmissionAttemptTime (Status newApp) in
  let terminated := TerminationTime (Status newApp) in
  submitted ≠ 0 ∧ terminated ≠ 0 ∧
  v = Z.quot (Sub terminated submitted) Microsecond ∧
  Z.quot minDuration Microsecond ≤ v ≤ Z.quot maxDuration Microsecond ∧
  (submitted ≤ terminated → 0 ≤ v) ∧
  (terminated + Microsecond ≤ submitted → v < 0).
Proof.
  intros Hin submitted terminated.
  unfold exportMetrics in Hin.
  rewrite MetricsFacts.observations_app,
    MetricsFacts.exportExecutorStateMetrics_observations, app_nil_r in Hin.
  assert (Hobs : (s, v) ∈ observations (observeExecutionTime s (Status newApp))).
  { unfold exportAppStateMetrics in Hin.
    destruct (negb (bool_decide _)); [|by apply elem_of_nil in Hin].
    destruct (AppState (Status newApp)); simpl in Hin;
      try (by apply elem_of_nil in Hin);
      rewrite MetricsFacts.observations_app in Hin; simpl in Hin;
      rewrite app_nil_r in Hin;
      rewrite MetricsFacts.observeExecutionTime_observations in Hin |- *;
      case_decide; try (by apply elem_of_nil in Hin);
      apply list_elem_of_singleton in Hin; injection Hin as -> ->;
      by apply list_elem_of_singleton. }
  rewrite MetricsFacts.observeExecutionTime_observations in Hobs.
  case_decide as Hset; [|by apply elem_of_nil in Hobs].
  apply list_elem_of_singleton in Hobs. injection Hobs as ->.
  fold submitted terminated in Hset |- *. destruct Hset as [Hs Ht].
  assert (Hrange : minDuration ≤ Sub terminated submitted ≤ maxDuration).
  { unfold Sub, minDuration, maxDuration.
    destruct (Z.ltb_spec (terminated - submitted) (- 2 ^ 63)); [lia|].
    destruct (Z.ltb_spec (2 ^ 63 - 1) (terminated - submitted)); lia. }
  split_and!; try done.
  - apply Z.quot_le_mono; [done|apply Hrange].
  - apply Z.quot_le_mono; [done|apply Hrange].
  - intros Hle. apply Z.quot_pos; [|done].
    unfold Sub, minDuration, maxDuration.
    destruct (Z.ltb_spec (terminated - submitted) (- 2 ^ 63)); [lia|].
    destruct (Z.ltb_spec (2 ^ 63 - 1) (terminated - submitted)); lia.
  - intros Hlt.
    assert (Hd : Sub terminated submitted ≤ - Microsecond).
    { unfold Sub, minDuration, maxDuration, Microsecond in *.
      destruct (Z.ltb_spec (terminated - submitted) (- 2 ^ 63)); [lia|].
      destruct (Z.ltb_spec (2 ^ 63 - 1) (terminated - submitted)); lia. }
    assert (Z.quot (Sub terminated submitted) Microsecond ≤ Z.quot (- Microsecond) Microsecond)
      by (apply Z.quot_le_mono; done).
    assert (Z.quot (- Microsecond) Microsecond = -1) by reflexivity.
    lia.
Qed.

Lemma observed_durations_witness :
  (sparkAppSuccessExecutionTime, 3500)
  ∈ observations (exportMetrics Samples.spark_pi_before Samples.spark_pi) ∧
  0 ≤ 3500.
Proof.
  assert (Hin : (sparkAppSuccessExecutionTime, 3500)
                ∈ observations (exportMetrics Samples.spark_pi_before Samples.spark_pi)).
  { apply list_elem_of_In. left. reflexivity. }
  split; [exact Hin|].
  apply (proj1 (proj2 (proj2 (proj2 (proj2
           (observed_durations Samples.spark_pi_before Samples.spark_pi
              sparkAppSuccessExecutionTime 3500 Hin)))))).
  vm_compute. discriminate.
Defined.

End MetricsBehaviour.

(** ** The Prometheus monitoring configuration *)

Module MonitoringFacts.
Import Registration Monitoring.

Lemma exposeMetrics_inv port text javaOption role store role' store' :
  exposeMetrics port text javaOption role store = Returned (role', store') →
  Annotations role' = withPrometheusAnnotations port (Annotations role) ∧
  ((JavaOptions role = None ∧ JavaOptions role' = Some javaOption ∧ store' = store)
   ∨ (∃ p options,
        JavaOptions role = Some p ∧ JavaOptions role' = Some p ∧
        store !! p = Some options ∧
        store' = <[p := options +:+ " " +:+ text]> store)).
Proof.
  unfold exposeMetrics. destruct (JavaOptions role) as [p|].
  - destruct (store !! p) as [options|] eqn:Hp; [|done].
    intros [= <- <-]. split; [done|]. right. by exists p, options.
  - intros [= <- <-]. split; [done|]. by left.
Qed.

(** What a successful run has done, step by step. *)
Lemma configPrometheusMonitoring_inv env client app store app' store' :
  configPrometheusMonitoring env client app store = Returned (Ok (app', store')) →
  ∃ monitoring prometheus text driver store1 executor,
    let port := default (DefaultPrometheusJavaAgentPort env) (Port prometheus) in
    Monitoring_ app = Some monitoring ∧
    Prometheus monitoring = Some prometheus ∧
    agentOption env client app prometheus text ∧
    (if ExposeDriverMetrics monitoring
     then exposeMetrics port text (length store) (Driver app) (store ++ [text])
     else Returned (Driver app, store ++ [text])) = Returned (driver, store1) ∧
    (if ExposeExecutorMetrics monitoring
     then exposeMetrics port text (length store) (Executor app) store1
     else Returned (Executor app, store1)) = Returned (executor, store') ∧
    app' = {| Namespace := Namespace app;
              AppName_ := AppName_ app;
              SparkConf :=
                Some (<["spark.metrics.conf" :=
                          PrometheusConfigMapMountPath env +:+ "/" +:+ metricsPropertiesKey]>
                        (<["spark.metrics.namespace" :=
                             Namespace app +:+ "." +:+ AppName_ app]>
                           (default ∅ (SparkConf app))));
              Driver := driver;
              Executor := executor;
              Monitoring_ := Monitoring_ app |}.
Proof.
  unfold configPrometheusMonitoring.
  destruct (Monitoring_ app) as [monitoring|] eqn:Hmon; [|done].
  destruct (Prometheus monitoring) as [prometheus|] eqn:Hprom; [|done].
  set (port := default (DefaultPrometheusJavaAgentPort env) (Port prometheus)).
  match goal with
  | |- match ?t with _ => _ end = _ → _ =>
      assert (Htext : ∀ text, t = Returned (Ok text) →
                        agentOption env client app prometheus text);
      [|destruct t as [[text|err]|]; [|done..]]
  end.
  { intros text. unfold agentOption. fold port.
    destruct (HasPrometheusConfigFile env app).
    - destruct (ConfigFile prometheus) as [configFile|]; [|done].
      intros [= <-]. left. split; [done|]. by exists configFile.
    - destruct (buildPrometheusConfigMap env app _) as [configMap|]; [|done].
      destruct (RetryOnConflict env _); [done|].
      intros [= <-]. by right. }
  intros H.
  match type of H with
  | match ?d with _ => _ end = _ => destruct d as [[driver store1]|] eqn:Hdriver; [|done]
  end.
  match type of H with
  | match ?e with _ => _ end = _ => destruct e as [[executor store2]|] eqn:Hexec; [|done]
  end.
  injection H as <- <-.
  exists monitoring, prometheus, text, driver, store1, executor.
  split_and!; auto.
Qed.

(** X26. Java options are appended, not overwritten.  After a successful
    run, a role that exposes its metrics and had no java options points to
    the java agent option; one that had options, not shared with the other
    role, has them followed by a space and the agent option; a role that
    does not expose its metrics keeps its spec; and every string of the
    store that neither role points to is unchanged. *)
Theorem java_options_appended env client app store app' store' :
  valid_pointers app store →
  configPrometheusMonitoring env client app store = Returned (Ok (app', store')) →
  ∃ monitoring prometheus text,
    Monitoring_ app = Some monitoring ∧ Prometheus monitoring = Some prometheus ∧
    agentOption env client app prometheus text ∧
    (ExposeDriverMetrics monitoring = false → Driver app' = Driver app) ∧
    (ExposeExecutorMetrics monitoring = false → Executor app' = Executor app) ∧
    (ExposeDriverMetrics monitoring = true → JavaOptions (Driver app) = None →
     deref store' (JavaOptions (Driver app')) = Some text) ∧
    (ExposeExecutorMetrics monitoring = true → JavaOptions (Executor app) = None →
     deref store' (JavaOptions (Executor app')) = Some text) ∧
    (∀ p options,
       ExposeDriverMetrics monitoring = true →
       JavaOptions (Driver app) = Some p → store !! p = Some options →
       JavaOptions (Executor app) ≠ Some p →
       JavaOptions (Driver app') = Some p ∧
       store' !! p = Some (options +:+ " " +:+ text)) ∧
    (∀ p options,
       ExposeExecutorMetrics monitoring = true →
       JavaOptions (Executor app) = Some p → store !! p = Some options →
       JavaOptions (Driver app) ≠ Some p →
       JavaOptions (Executor app') = Some p ∧
       store' !! p = Some (options +:+ " " +:+ text)) ∧
    (∀ i, JavaOptions (Driver app) ≠ Some i → JavaOptions (Executor app) ≠ Some i →
          (i < length store)%nat → store' !! i = store !! i).
Proof.
  intros [Hvd Hve] Hrun.
  apply configPrometheusMonitoring_inv in Hrun
    as (monitoring & prometheus & text & driver & store1 & executor
        & Hmon & Hprom & Htext & Hdriver & Hexec & ->).
  exists monitoring, prometheus, text. simpl.
  set (port := default (DefaultPrometheusJavaAgentPort env) (Port prometheus)) in *.
  assert (Hlen : ∀ p : nat, is_Some (store !! p) → (p < length store)%nat).
  { intros p Hp. by apply lookup_lt_is_Some. }
  assert (Hd : (ExposeDriverMetrics monitoring = false ∧ driver = Driver app
                ∧ store1 = store ++ [text])
               ∨ (ExposeDriverMetrics monitoring = true
                  ∧ JavaOptions (Driver app) = None
                  ∧ JavaOptions driver = Some (length store)
                  ∧ store1 = store ++ [text])
               ∨ (∃ p options,
                    ExposeDriverMetrics monitoring = true
                    ∧ JavaOptions (Driver app) = Some p ∧ JavaOptions driver = Some p
                    ∧ store !! p = Some options
                    ∧ store1 = <[p := options +:+ " " +:+ text]> (store ++ [text]))).
  { destruct (ExposeDriverMetrics monitoring).
    - apply exposeMetrics_inv in Hdriver
        as (_ & [(? & ? & ?)|(p & options & Hp & ? & Hlook & ?)]); [by right; left|].
      right. right. exists p, options. split_and!; try done.
      rewrite lookup_app_l in Hlook by (apply Hlen, Hvd, Hp). done.
    - injection Hdriver as <- <-. by left. }
  assert (Hlen1 : length store1 = S (length store)).
  { destruct Hd as [(_ & _ & ->)|[(_ & _ & _ & ->)|(p & options & _ & _ & _ & _ & ->)]];
      rewrite ?length_insert, length_app; simpl; lia. }
  assert (He : (ExposeExecutorMetrics monitoring = false ∧ executor = Executor app
                ∧ store' = store1)
               ∨ (ExposeExecutorMetrics monitoring = true
                  ∧ JavaOptions (Executor app) = None
                  ∧ JavaOptions executor = Some (length store)
                  ∧ store' = store1)
               ∨ (∃ q options,
                    ExposeExecutorMetrics monitoring = true
                    ∧ JavaOptions (Executor app) = Some q ∧ JavaOptions executor = Some q
                    ∧ (q < length store)%nat
                    ∧ store1 !! q = Some options
                    ∧ store' = <[q := options +:+ " " +:+ text]> store1)).
  { destruct (ExposeExecutorMetrics monitoring).
    - apply exposeMetrics_inv in Hexec
        as (_ & [(? & ? & ?)|(q & options & Hq & ? & Hlook & ?)]); [by right; left|].
      right. right. exists q, options. split_and!; try done. apply Hlen, Hve, Hq.
    - injection Hexec as <- <-. by left. }
  assert (Hnew : (store ++ [text]) !! length store = Some text).
  { rewrite lookup_app_r by lia. by rewrite Nat.sub_diag. }
  assert (Hold : ∀ i, (i < length store)%nat → (store ++ [text]) !! i = store !! i).
  { intros i Hi. by rewrite lookup_app_l. }
  split_and!; try done.
  - intros Hoff. destruct Hd as [(_ & -> & _)|[(? & _)|(? & ? & ? & _)]]; congruence.
  - intros Hoff. destruct He as [(_ & -> & _)|[(? & _)|(? & ? & ? & _)]]; congruence.
  - intros Hon Hnil.
    destruct Hd as [(? & _)|[(_ & _ & -> & ->)|(? & ? & _ & ? & _)]]; [congruence| |congruence].
    unfold deref. simpl.
    destruct He as [(_ & _ & ->)|[(_ & _ & _ & ->)|(q & options & _ & _ & _ & Hq & _ & ->)]];
      try done.
    rewrite list_lookup_insert_ne by lia. done.
  - intros Hon Hnil.
    destruct He as [(? & _)|[(_ & _ & -> & ->)|(? & ? & _ & ? & _)]]; [congruence| |congruence].
    unfold deref. simpl.
    destruct Hd as [(_ & _ & ->)|[(_ & _ & _ & ->)|(p & options & _ & Hp & _ & Hlook & ->)]];
      try done.
    rewrite list_lookup_insert_ne; [done|].
    assert (p < length store)%nat by (apply Hlen; by eexists). lia.
  - intros p options Hon Hp Hlook Hne.
    assert (Hplt : (p < length store)%nat) by (apply Hlen; by eexists).
    destruct Hd as [(? & _)|[(_ & ? & _)|(p' & options' & _ & Hp' & Hdp & Hlook' & ->)]];
      [congruence..|].
    assert (p' = p) as -> by congruence.
    assert (options' = options) as -> by congruence.
    split; [done|].
    assert (Hp1 : <[p := options +:+ " " +:+ text]> (store ++ [text]) !! p
                  = Some (options +:+ " " +:+ text)).
    { apply list_lookup_insert_eq. rewrite length_app. simpl. lia. }
    destruct He as [(_ & _ & ->)|[(_ & _ & _ & ->)|(q & optq & _ & Hq & _ & _ & _ & ->)]];
      try done.
    rewrite list_lookup_insert_ne by congruence. done.
  - intros p options Hon Hp Hlook Hne.
    assert (Hplt : (p < length store)%nat) by (apply Hlen; by eexists).
    destruct He as [(? & _)|[(_ & ? & _)|(q & optq & _ & Hq & Heq & _ & Hlookq & ->)]];
      [congruence..|].
    assert (q = p) as -> by congruence.
    split; [done|].
    assert (Hsame : store1 !! p = Some options).
    { destruct Hd as [(_ & _ & ->)|[(_ & _ & _ & ->)|(p' & ? & _ & Hp' & _ & _ & ->)]].
      - by rewrite Hold.
      - by rewrite Hold.
      - rewrite list_lookup_insert_ne by congruence. by rewrite Hold. }
    assert (optq = options) as -> by congruence.
    apply list_lookup_insert_eq. lia.
  - intros i Hdi Hei Hi.
    assert (Hs1 : store1 !! i = store !! i).
    { destruct Hd as [(_ & _ & ->)|[(_ & _ & _ & ->)|(p' & ? & _ & Hp' & _ & _ & ->)]].
      - by apply Hold.
      - by apply Hold.
      - rewrite list_lookup_insert_ne by congruence. by apply Hold. }
    destruct He as [(_ & _ & ->)|[(_ & _ & _ & ->)|(q & optq & _ & Hq & _ & _ & _ & ->)]];
      try done.
    rewrite list_lookup_insert_ne by congruence. done.
Qed.

Lemma java_options_appended_witness :
  ∃ app' store',
    configPrometheusMonitoring MonitoringSamples.env
      (λ _, MonitoringSamples.empty_cluster) MonitoringSamples.app MonitoringSamples.store
    = Returned (Ok (app', store')) ∧
    store' !! 0%nat = Some ("-Dlog4j.debug" +:+ " " +:+ MonitoringSamples.agent) ∧
    deref store' (JavaOptions (Executor app')) = Some MonitoringSamples.agent.
Proof.
  eexists _, _. split; [reflexivity|].
  destruct (java_options_appended MonitoringSamples.env
              (λ _, MonitoringSamples.empty_cluster) MonitoringSamples.app
              MonitoringSamples.store _ _
              ltac:(split; intros p [= <-]; by eexists) eq_refl)
    as (monitoring & prometheus & text & Hmon & Hprom & Htext
        & _ & _ & _ & Hexecutor & Hdriver & _).
  injection Hmon as <-. injection Hprom as <-.
  destruct Htext as [(Hfile & _)|(_ & ->)]; [discriminate Hfile|].
  split.
  - apply (Hdriver 0%nat "-Dlog4j.debug"); [reflexivity..|discriminate].
  - apply Hexecutor; reflexivity.
Defined.

(** X27. The two roles can share one string.  When both expose their
    metrics and their java options are the same pointer, the agent option
    is appended to the shared string twice, and both roles see it twice;
    when both have no java options, both end up pointing to one and the
    same new string, the agent option. *)
Theorem java_options_shared env client app store app' store' :
  configPrometheusMonitoring env client app store = Returned (Ok (app', store')) →
  ∀ monitoring prometheus,
    Monitoring_ app = Some monitoring → Prometheus monitoring = Some prometheus →
    ExposeDriverMetrics monitoring = true → ExposeExecutorMetrics monitoring = true →
    ∃ text,
      agentOption env client app prometheus text ∧
      (∀ p options,
         JavaOptions (Driver app) = Some p → JavaOptions (Executor app) = Some p →
         store !! p = Some options →
         JavaOptions (Driver app') = Some p ∧ JavaOptions (Executor app') = Some p ∧
         store' !! p = Some ((options +:+ " " +:+ text) +:+ " " +:+ text)) ∧
      (JavaOptions (Driver app) = None → JavaOptions (Executor app) = None →
       JavaOptions (Driver app') = Some (length store) ∧
       JavaOptions (Executor app') = Some (length store) ∧
       store' = store ++ [text]).
Proof.
  intros Hrun monitoring prometheus Hmon Hprom Hdon Heon.
  apply configPrometheusMonitoring_inv in Hrun
    as (monitoring' & prometheus' & text & driver & store1 & executor
        & Hmon' & Hprom' & Htext & Hdriver & Hexec & ->).
  assert (monitoring' = monitoring) as -> by congruence.
  assert (prometheus' = prometheus) as -> by congruence.
  rewrite Hdon in Hdriver. rewrite Heon in Hexec.
  exists text. split; [done|]. simpl.
  apply exposeMetrics_inv in Hdriver as (_ & Hdriver).
  apply exposeMetrics_inv in Hexec as (_ & Hexec).
  split.
  - intros p options Hdp Hep Hlook.
    destruct Hdriver as [(? & _)|(p' & options' & Hp' & Hdp' & Hlook' & ->)]; [congruence|].
    assert (p' = p) as -> by congruence.
    assert (Hplt : (p < length store)%nat) by (by apply lookup_lt_is_Some; eexists).
    rewrite lookup_app_l in Hlook' by done.
    assert (options' = options) as -> by congruence.
    destruct Hexec as [(? & _)|(q & optq & Hq & Heq & Hlookq & ->)]; [congruence|].
    assert (q = p) as -> by congruence.
    rewrite list_lookup_insert_eq in Hlookq by (rewrite length_app; simpl; lia).
    injection Hlookq as <-.
    split_and!; [done..|].
    apply list_lookup_insert_eq. rewrite length_insert, length_app. simpl. lia.
  - intros Hdnil Henil.
    destruct Hdriver as [(_ & Hdp & ->)|(? & ? & ? & _)]; [|congruence].
    destruct Hexec as [(_ & Hep & ->)|(? & ? & ? & _)]; [|congruence].
    done.
Qed.

Lemma java_options_shared_witness :
  ∃ app' store',
    configPrometheusMonitoring MonitoringSamples.env
      (λ _, MonitoringSamples.empty_cluster) MonitoringSamples.aliased_app
      MonitoringSamples.store
    = Returned (Ok (app', store')) ∧
    store' !! 0%nat
    = Some (("-Dlog4j.debug" +:+ " " +:+ MonitoringSamples.agent)
            +:+ " " +:+ MonitoringSamples.agent).
Proof.
  eexists _, _. split; [reflexivity|].
  destruct (java_options_shared MonitoringSamples.env
              (λ _, MonitoringSamples.empty_cluster) MonitoringSamples.aliased_app
              MonitoringSamples.store _ _ eq_refl
              MonitoringSamples.monitoring _ eq_refl eq_refl eq_refl eq_refl)
    as (text & Htext & Hshared & _).
  destruct Htext as [(Hfile & _)|(_ & ->)]; [discriminate Hfile|].
  apply (Hshared 0%nat "-Dlog4j.debug"); reflexivity.
Defined.

(** X28. A successful run sets the two metrics entries of the Spark
    configuration and keeps every other entry, making the map when it was
    nil.  A role that exposes its metrics gets the scrape, port and path
    annotations, the port being the configured one or the default, and
    keeps its other annotations; a role that does not is left alone. *)
Theorem conf_and_annotations env client app store app' store' :
  configPrometheusMonitoring env client app store = Returned (Ok (app', store')) →
  ∃ monitoring prometheus conf,
    let port := default (DefaultPrometheusJavaAgentPort env) (Port prometheus) in
    let annotated (role role' : SparkPodSpec) : Prop :=
      ∃ annotations,
        Annotations role' = Some annotations ∧
        annotations !! prometheusScrapeAnnotation = Some "true" ∧
        annotations !! prometheusPortAnnotation = Some (pretty port) ∧
        annotations !! prometheusPathAnnotation = Some "/metrics" ∧
        ∀ key, key ≠ prometheusScrapeAnnotation → key ≠ prometheusPortAnnotation →
               key ≠ prometheusPathAnnotation →
               annotations !! key = default ∅ (Annotations role) !! key in
    Monitoring_ app = Some monitoring ∧ Prometheus monitoring = Some prometheus ∧
    SparkConf app' = Some conf ∧
    conf !! "spark.metrics.namespace" = Some (Namespace app +:+ "." +:+ AppName_ app) ∧
    conf !! "spark.metrics.conf"
    = Some (PrometheusConfigMapMountPath env +:+ "/" +:+ metricsPropertiesKey) ∧
    (∀ key, key ≠ "spark.metrics.namespace" → key ≠ "spark.metrics.conf" →
            conf !! key = default ∅ (SparkConf app) !! key) ∧
    (if ExposeDriverMetrics monitoring then annotated (Driver app) (Driver app')
     else Driver app' = Driver app) ∧
    (if ExposeExecutorMetrics monitoring then annotated (Executor app) (Executor app')
     else Executor app' = Executor app) ∧
    Namespace app' = Namespace app ∧ AppName_ app' = AppName_ app ∧
    Monitoring_ app' = Monitoring_ app.
Proof.
  intros Hrun.
  apply configPrometheusMonitoring_inv in Hrun
    as (monitoring & prometheus & text & driver & store1 & executor
        & Hmon & Hprom & Htext & Hdriver & Hexec & ->).
  exists monitoring, prometheus. eexists. simpl.
  assert (Hann : ∀ port role role' st st',
            exposeMetrics port text (length store) role st = Returned (role', st') →
            ∃ annotations,
              Annotations role' = Some annotations ∧
              annotations !! prometheusScrapeAnnotation = Some "true" ∧
              annotations !! prometheusPortAnnotation = Some (pretty port) ∧
              annotations !! prometheusPathAnnotation = Some "/metrics" ∧
              ∀ key, key ≠ prometheusScrapeAnnotation → key ≠ prometheusPortAnnotation →
                     key ≠ prometheusPathAnnotation →
                     annotations !! key = default ∅ (Annotations role) !! key).
  { intros port role role' st st' (Hannot & _)%exposeMetrics_inv.
    eexists. split; [exact Hannot|].
    split_and!.
    - do 2 (rewrite lookup_insert_ne by (vm_compute; discriminate)).
      apply lookup_insert_eq.
    - rewrite lookup_insert_ne by (vm_compute; discriminate).
      apply lookup_insert_eq.
    - apply lookup_insert_eq.
    - intros key ? ? ?. by do 3 (rewrite lookup_insert_ne by done). }
  split_and!; try done.
  - rewrite lookup_insert_ne by (vm_compute; discriminate). apply lookup_insert_eq.
  - apply lookup_insert_eq.
  - intros key ? ?. by do 2 (rewrite lookup_insert_ne by done).
  - destruct (ExposeDriverMetrics monitoring); [by eapply Hann|].
    by injection Hdriver as <- _.
  - destruct (ExposeExecutorMetrics monitoring); [by eapply Hann|].
    by injection Hexec as <- _.
Qed.

Lemma conf_and_annotations_witness :
  ∃ app' store' annotations,
    configPrometheusMonitoring MonitoringSamples.env
      (λ _, MonitoringSamples.empty_cluster) MonitoringSamples.app MonitoringSamples.store
    = Returned (Ok (app', store')) ∧
    Annotations (Driver app') = Some annotations ∧
    annotations !! "team" = Some "data" ∧
    annotations !! prometheusPortAnnotation = Some "8090".
Proof.
  destruct (conf_and_annotations MonitoringSamples.env
              (λ _, MonitoringSamples.empty_cluster) MonitoringSamples.app
              MonitoringSamples.store _ _ eq_refl)
    as (monitoring & prometheus & conf & Hmon & Hprom & _ & _ & _ & _ & Hdriver & _).
  injection Hmon as <-. injection Hprom as <-.
  destruct Hdriver as (annotations & Hannotations & _ & Hport & _ & Hother).
  eexists _, _, annotations. split; [reflexivity|].
  split; [exact Hannotations|]. split; [|exact Hport].
  rewrite Hother by discriminate. reflexivity.
Defined.

(** X29. The only error [configPrometheusMonitoring] returns is the one
    of the retried ConfigMap application, wrapped with the ConfigMap name
    and the namespace, and it is returned before anything is changed.
    When the application names a configuration file of its own, the
    outcome does not depend on the client or on the retry at all: no
    ConfigMap is applied. *)
Theorem monitoring_errors env client app store :
  (∀ err,
     configPrometheusMonitoring env client app store = Returned (Err err) ↔
     ∃ monitoring prometheus configMap retryErr,
       Monitoring_ app = Some monitoring ∧ Prometheus monitoring = Some prometheus ∧
       HasPrometheusConfigFile env app = false ∧
       buildPrometheusConfigMap env app (GetPrometheusConfigMapName env app)
       = Returned configMap ∧
       RetryOnConflict env
         (λ attempt, (applyConfigMap (client attempt) (Namespace app)
                        (GetPrometheusConfigMapName env app) configMap).2)
       = Some retryErr ∧
       err = "failed to apply " +:+ GetPrometheusConfigMapName env app
             +:+ " in namespace " +:+ Namespace app +:+ ": " +:+ ErrorText retryErr) ∧
  (HasPrometheusConfigFile env app = true →
   ∀ client' retry',
     configPrometheusMonitoring env client app store
     = configPrometheusMonitoring
         {| DefaultPrometheusJavaAgentPort := DefaultPrometheusJavaAgentPort env;
            PrometheusConfigMapMountPath := PrometheusConfigMapMountPath env;
            DefaultMetricsProperties := DefaultMetricsProperties env;
            DefaultPrometheusConfiguration := DefaultPrometheusConfiguration env;
            GetPrometheusConfigMapName := GetPrometheusConfigMapName env;
            HasPrometheusConfigFile := HasPrometheusConfigFile env;
            getOwnerReference := getOwnerReference env;
            RetryOnConflict := retry' |}
         client' app store).
Proof.
  split.
  - intros err. unfold configPrometheusMonitoring, buildPrometheusConfigMap.
    destruct (Monitoring_ app) as [monitoring|] eqn:Hmon;
      [|split; [done|by intros (? & ? & ? & ? & ? & _)]].
    destruct (Prometheus monitoring) as [prometheus|] eqn:Hprom;
      [|split; [done|intros (? & ? & ? & ? & ? & ? & _); congruence]].
    destruct (HasPrometheusConfigFile env app) eqn:Hfile.
    + split; [|by intros (? & ? & ? & ? & _ & _ & ? & _)].
      destruct (ConfigFile prometheus); [|done].
      intros H.
      repeat match type of H with
             | context [match ?x with _ => _ end] => destruct x eqn:?
             end; simplify_eq.
    + match goal with
      | |- context [RetryOnConflict env ?fn] =>
          destruct (RetryOnConflict env fn) as [retryErr|] eqn:Hretry
      end.
      * split.
        -- intros [= <-]. eexists monitoring, prometheus, _, retryErr.
           split_and!; try done.
        -- intros (m & pr & cm & e & Hm & Hp & _ & Hcm & Hre & ->).
           simplify_eq; congruence.
      * split.
        -- intros H.
           repeat match type of H with
                  | context [match ?x with _ => _ end] => destruct x eqn:?
                  end; simplify_eq.
        -- intros (m & pr & cm & e & Hm & Hp & _ & Hcm & Hre & ->).
           simplify_eq; congruence.
  - intros Hfile client' retry'. unfold configPrometheusMonitoring. simpl.
    by rewrite Hfile.
Qed.

Lemma monitoring_errors_witness :
  configPrometheusMonitoring MonitoringSamples.env
    (λ _, MonitoringSamples.busy_cluster) MonitoringSamples.app MonitoringSamples.store
  = Returned (Err "failed to apply spark-pi-prom-conf in namespace default: conflict").
Proof.
  apply (proj1 (monitoring_errors MonitoringSamples.env
                  (λ _, MonitoringSamples.busy_cluster) MonitoringSamples.app
                  MonitoringSamples.store)).
  eexists MonitoringSamples.monitoring, _, _,
    {| IsNotFound := false; ErrorText := "conflict" |}.
  split_and!; reflexivity.
Defined.

(** X30. One attempt at applying the ConfigMap reads once and writes once
    or not at all: it creates the built ConfigMap when the read answers
    not-found, gives up with the error of any other failed read, and
    otherwise updates the object it read, replacing nothing but its data.
    The data written are always the two entries metrics.properties and
    prometheus.yaml, with the application's own texts or the defaults. *)
Theorem applyConfigMap_writes env client app name configMap :
  buildPrometheusConfigMap env app name = Returned configMap →
  let attempt := applyConfigMap client (Namespace app) name configMap in
  (∃ monitoring prometheus,
     Monitoring_ app = Some monitoring ∧ Prometheus monitoring = Some prometheus ∧
     dom (Data configMap) = {[metricsPropertiesKey; prometheusConfigKey]} ∧
     Data configMap !! metricsPropertiesKey
     = Some (default (DefaultMetricsProperties env) (MetricsProperties monitoring)) ∧
     Data configMap !! prometheusConfigKey
     = Some (default (DefaultPrometheusConfiguration env) (Configuration prometheus)) ∧
     CMName configMap = name ∧ CMNamespace configMap = Namespace app ∧
     OwnerReferences configMap = [getOwnerReference env app]) ∧
  (∀ err, GetCM client (Namespace app) name = inr err →
     if IsNotFound err
     then attempt = ([CMGet (Namespace app) name; CMCreate configMap],
                     CreateCM client configMap)
     else attempt = ([CMGet (Namespace app) name], Some err)) ∧
  (∀ cm, GetCM client (Namespace app) name = inl cm →
     ∃ updated,
       attempt = ([CMGet (Namespace app) name; CMUpdate updated], UpdateCM client updated) ∧
       Data updated = Data configMap ∧
       CMName updated = CMName cm ∧ CMNamespace updated = CMNamespace cm ∧
       OwnerReferences updated = OwnerReferences cm ∧ CMMeta updated = CMMeta cm).
Proof.
  unfold buildPrometheusConfigMap, applyConfigMap.
  destruct (Monitoring_ app) as [monitoring|] eqn:Hmon; [|done].
  destruct (Prometheus monitoring) as [prometheus|] eqn:Hprom; [|done].
  intros [= <-]. cbn [Data CMName CMNamespace OwnerReferences CMMeta]. split_and!.
  - exists monitoring, prometheus. split_and!; done.
  - intros err ->. by destruct (IsNotFound err).
  - intros cm ->. eexists. split; [reflexivity|done].
Qed.

Lemma applyConfigMap_writes_witness :
  ∃ configMap,
    buildPrometheusConfigMap MonitoringSamples.env MonitoringSamples.app
      "spark-pi-prom-conf" = Returned configMap ∧
    ∃ updated,
      applyConfigMap MonitoringSamples.busy_cluster "default" "spark-pi-prom-conf" configMap
      = ([CMGet "default" "spark-pi-prom-conf"; CMUpdate updated],
         UpdateCM MonitoringSamples.busy_cluster updated) ∧
      Data updated = Data configMap ∧
      CMMeta updated = [("resourceVersion", "7")].
Proof.
  eexists. split; [reflexivity|].
  destruct (proj2 (proj2 (applyConfigMap_writes MonitoringSamples.env
                            MonitoringSamples.busy_cluster MonitoringSamples.app
                            "spark-pi-prom-conf" _ eq_refl)) _ eq_refl)
    as (updated & Hattempt & Hdata & _ & _ & _ & Hmeta).
  exists updated. split; [exact Hattempt|]. split; [exact Hdata|exact Hmeta].
Defined.

End MonitoringFacts.
